(** * PIE-NET training data preparation: label transfer onto sampled point clouds

    A shallow embedding of [training_data.py].  pandas frames are lists of
    records (one record type per frame shape, fields named as the columns),
    together with the list of column names each operation produces.  Python
    exceptions are the left summand of [result].

    Coordinates are float64 in the source.  The development is parametric in
    the scalar type: the arithmetic used by the distance computation is taken
    as the operations of the class [Scalar], and the only facts ever assumed
    about it (for the nearest-neighbour theorem alone) are that [<=] is total
    and transitive, which holds on float64 values that are not NaN. *)

From Stdlib Require Import String Ascii.
From Stdlib Require Import List ZArith Bool Lia PeanoNat.
Import ListNotations.

Set Implicit Arguments.

(** ** Exceptions and results *)

Inductive exn : Type :=
| AttributeError   (* attribute access on a frame without that column, or on None *)
| ValueError       (* NaN cast to int, argmin of an empty array *)
| OverflowError    (* Python int outside int64 cast to int *)
| IndexError.      (* ndarray index out of bounds *)

Definition result (A : Type) : Type := (exn + A)%type.

Definition raise {A : Type} (e : exn) : result A := inl e.
Definition ret {A : Type} (a : A) : result A := inr a.

Definition bind {A B : Type} (m : result A) (k : A -> result B) : result B :=
  match m with
  | inl e => inl e
  | inr a => k a
  end.

Notation "x <- m ;; k" := (bind m (fun x => k))
  (at level 61, m at next level, right associativity).

(** [Series.map f] / [DataFrame.apply f axis=1]: the function is called row
    by row, in order; the first exception propagates. *)
Fixpoint mapM {A B : Type} (f : A -> result B) (l : list A) : result (list B) :=
  match l with
  | [] => ret []
  | a :: l' => b <- f a ;; bs <- mapM f l' ;; ret (b :: bs)
  end.

(** ** Scalars *)

Class Scalar (R : Type) : Type := {
  Rsub : R -> R -> R;        (* ndarray - ndarray, elementwise *)
  Rsquare : R -> R;          (* np.square *)
  Radd : R -> R -> R;        (* the additions of .sum(axis=1) *)
  Rleb : R -> R -> bool      (* <= as used by argmin *)
}.

#[export] Instance Scalar_Z : Scalar Z := {
  Rsub := Z.sub;
  Rsquare := fun a => (a * a)%Z;
  Radd := Z.add;
  Rleb := Z.leb
}.

(** ** Frames *)

(** The feature file: [feat["curves"]] is a list of curve entries, of which
    only [vert_indices] is read. *)
Record Curve : Type := { vert_indices : list Z }.
Record Feat : Type := { curves : list Curve }.

(** The frame built in [mark_edges_and_corners] before [_mark_corner]:
    columns [curv_id, idx]. *)
Module Edge.
Record row : Type := { curv_id : nat; idx : Z }.
Definition columns : list string := ["curv_id"; "idx"]%string.
End Edge.

(** After [_mark_corner]: columns [curv_id, idx, is_corner]. *)
Module Corner.
Record row : Type := { curv_id : nat; idx : Z; is_corner : bool }.
End Corner.

(** The BoundaryPoint frame [curv]: columns [curv_id, idx, is_corner, x, y, z]. *)
Module Curv.
Record row (R : Type) : Type :=
  { curv_id : nat; idx : Z; is_corner : bool; x : R; y : R; z : R }.
End Curv.

(** The sampled cloud [pcloud]: columns [x, y, z], index 0..N-1. *)
Module Pcloud.
Record row (R : Type) : Type := { x : R; y : R; z : R }.
Definition columns : list string := ["x"; "y"; "z"]%string.
End Pcloud.

(** The frame returned by [transfer_labels].  The columns coming from [curv]
    are NaN (here [None]) on the rows of sampled points that no boundary
    point was merged with. *)
Module Out.
Record row (R : Type) : Type :=
  { curv_id : option nat;
    is_corner : bool;
    x_orig : option R; y_orig : option R; z_orig : option R;
    x : R; y : R; z : R;
    is_edge : bool }.
End Out.

(** ** Column names *)

Definition has_column (c : string) (cols : list string) : bool :=
  existsb (String.eqb c) cols.

(** [df.assign(c=...)]: an existing column is replaced in place, a new one is
    appended. *)
Definition assign_column (c : string) (cols : list string) : list string :=
  if has_column c cols then cols else cols ++ [c].

(** [df.drop(columns=ds)]. *)
Definition drop_columns (ds cols : list string) : list string :=
  filter (fun c => negb (has_column c ds)) cols.

(** [left.merge(right, left_on=.., right_index=True, suffixes=(ls, None))]:
    the left columns, those also present on the right renamed with the left
    suffix, followed by the right columns unchanged. *)
Definition merge_columns (left right : list string) (lsuffix : string) : list string :=
  map (fun c => if has_column c right then (c ++ lsuffix)%string else c) left ++ right.

(** ** Feature Extractor *)

(** [Series.explode()]: one entry per list element, carrying the label of the
    row it came from; an empty list gives a single NaN entry. *)
Definition explode (s : list (list Z)) : list (nat * option Z) :=
  concat
    (map (fun '(cid, vs) =>
            match vs with
            | [] => [(cid, None)]
            | _ => map (fun v => (cid, Some v)) vs
            end)
         (combine (seq 0 (length s)) s)).

(** The integers that numpy's int64 holds. *)
Definition fits_int64 (i : Z) : bool := ((- 2 ^ 63 <=? i) && (i <? 2 ^ 63))%Z.

(** The cast of one entry to int64: NaN cannot be converted (ValueError), and
    neither can a Python int outside int64 (OverflowError). *)
Definition cast_entry (e : nat * option Z) : result (nat * Z) :=
  match snd e with
  | Some i => if fits_int64 i then ret (fst e, i) else raise OverflowError
  | None => raise ValueError
  end.

(** [.astype(int)]: the entries are cast in order; the first one that cannot
    be converted raises. *)
Definition astype_int (s : list (nat * option Z)) : result (list (nat * Z)) :=
  mapM cast_entry s.

(** [.rename("idx").to_frame().rename_axis("curv_id").reset_index()]. *)
Definition to_edge_frame (s : list (nat * Z)) : list Edge.row :=
  map (fun '(cid, i) => {| Edge.curv_id := cid; Edge.idx := i |}) s.

(** [Series.value_counts()], read at a label. *)
Definition value_counts (s : list Z) (i : Z) : nat := count_occ Z.eq_dec s i.

Definition _mark_corner (edge : list Edge.row) : list Corner.row :=
  let val_counts := value_counts (map Edge.idx edge) in
  map (fun r => {| Corner.curv_id := Edge.curv_id r;
                   Corner.idx := Edge.idx r;
                   Corner.is_corner := 1 <? val_counts (Edge.idx r) |})
      edge.

(** [a[i]] on the first axis of an ndarray: negative indices count from the
    end, anything outside [-n, n) raises. *)
Definition getitem {A : Type} (a : list A) (i : Z) : result A :=
  let n := Z.of_nat (length a) in
  let pos := if (i <? 0)%Z then (i + n)%Z else i in
  if ((0 <=? pos)%Z && (pos <? n)%Z)%bool then
    match nth_error a (Z.to_nat pos) with
    | Some v => ret v
    | None => raise IndexError
    end
  else raise IndexError.

Section FeatureExtractor.
Context {R : Type}.

(** A row of [mesh.vertex_matrix()]. *)
Definition vertex : Type := (R * R * R)%type.

Definition _merge_coords (edge : list Corner.row) (orig_points : list vertex)
  : result (list (Curv.row R)) :=
  xs <- mapM (fun i => p <- getitem orig_points i ;; ret (fst (fst p)))
             (map Corner.idx edge) ;;
  ys <- mapM (fun i => p <- getitem orig_points i ;; ret (snd (fst p)))
             (map Corner.idx edge) ;;
  zs <- mapM (fun i => p <- getitem orig_points i ;; ret (snd p))
             (map Corner.idx edge) ;;
  ret (map (fun '(r, (cx, (cy, cz))) =>
              {| Curv.curv_id := Corner.curv_id r;
                 Curv.idx := Corner.idx r;
                 Curv.is_corner := Corner.is_corner r;
                 Curv.x := cx; Curv.y := cy; Curv.z := cz |})
           (combine edge (combine xs (combine ys zs)))).

Definition mark_edges_and_corners (orig_points : list vertex) (feat : Feat)
  : result (list (Curv.row R)) :=
  match curves feat with
  | [] => raise AttributeError   (* a frame without columns has no [vert_indices] *)
  | cs =>
      edge_point_idxs <- astype_int (explode (map vert_indices cs)) ;;
      _merge_coords (_mark_corner (to_edge_frame edge_point_idxs)) orig_points
  end.

End FeatureExtractor.

Definition curv_columns : list string :=
  assign_column "z" (assign_column "y" (assign_column "x"
    (assign_column "is_corner" Edge.columns))).

(** ** Label Transfer Engine *)

Section LabelTransfer.
Context {R : Type} `{Scalar R}.

(** [curv.drop_duplicates(subset=["idx"])], with pandas' default
    [keep="first"]: rows are visited in order and a row is kept when its
    [idx] was not met before. *)
Fixpoint drop_duplicates_from (seen : list Z) (curv : list (Curv.row R))
  : list (Curv.row R) :=
  match curv with
  | [] => []
  | r :: rest =>
      if existsb (Z.eqb (Curv.idx r)) seen
      then drop_duplicates_from seen rest
      else r :: drop_duplicates_from (Curv.idx r :: seen) rest
  end.

Definition drop_duplicates (curv : list (Curv.row R)) : list (Curv.row R) :=
  drop_duplicates_from [] curv.

(** One entry of [np.square(dist_vects).sum(axis=1)].  The three squares are
    added left to right; no property below depends on that order. *)
Definition sq_dist (row : Curv.row R) (p : Pcloud.row R) : R :=
  Radd (Radd (Rsquare (Rsub (Pcloud.x p) (Curv.x row)))
             (Rsquare (Rsub (Pcloud.y p) (Curv.y row))))
       (Rsquare (Rsub (Pcloud.z p) (Curv.z row))).

(** [ndarray.argmin()]: the position of the first occurrence of the minimum.
    [best] is the position of the minimum [bv] among the entries already
    seen, [k] the position of the head of [l]. *)
Fixpoint argmin_from (best : nat) (bv : R) (k : nat) (l : list R) : nat :=
  match l with
  | [] => best
  | v :: l' =>
      if Rleb bv v
      then argmin_from best bv (S k) l'
      else argmin_from k v (S k) l'
  end.

Definition argmin (a : list R) : result nat :=
  match a with
  | [] => raise ValueError   (* attempt to get argmin of an empty sequence *)
  | v :: l => ret (argmin_from 0 v 1 l)
  end.

Definition _transfer_gt_labels (row : Curv.row R) (pcloud : list (Pcloud.row R))
  : result nat :=
  let dist := map (sq_dist row) pcloud in
  argmin dist.

(** The rows that the right join emits for the sampled point [p] of index
    [j]: one per row of the left frame whose key is [j], in the order of the
    left frame, or a single row with the left columns missing when there is
    none. *)
Definition rows_of_point (left : list (Curv.row R * nat)) (j : nat) (p : Pcloud.row R)
  : list (option (Curv.row R) * Pcloud.row R) :=
  match filter (fun m => snd m =? j) left with
  | [] => [(None, p)]
  | ms => map (fun m => (Some (fst m), p)) ms
  end.

(** [left.merge(pcloud, how="right", left_on="pcloud_df_idx",
    right_index=True)]: the groups of rows follow the order of [pcloud]. *)
Definition merge_right (left : list (Curv.row R * nat)) (pcloud : list (Pcloud.row R))
  : list (option (Curv.row R) * Pcloud.row R) :=
  concat (map (fun jp => rows_of_point left (fst jp) (snd jp))
              (combine (seq 0 (length pcloud)) pcloud)).

(** [.drop(columns=["idx", "pcloud_df_idx"])] and the final [.assign]:
    [is_edge = is_corner.notna()], [is_corner = (is_corner == True)], both
    read from the merged [is_corner] column. *)
Definition label_row (m : option (Curv.row R) * Pcloud.row R) : Out.row R :=
  let merged_is_corner := option_map (@Curv.is_corner R) (fst m) in
  {| Out.curv_id := option_map (@Curv.curv_id R) (fst m);
     Out.is_corner := match merged_is_corner with
                      | Some true => true
                      | _ => false
                      end;
     Out.x_orig := option_map (@Curv.x R) (fst m);
     Out.y_orig := option_map (@Curv.y R) (fst m);
     Out.z_orig := option_map (@Curv.z R) (fst m);
     Out.x := Pcloud.x (snd m);
     Out.y := Pcloud.y (snd m);
     Out.z := Pcloud.z (snd m);
     Out.is_edge := match merged_is_corner with
                    | Some _ => true
                    | None => false
                    end |}.

(** The columns [x, y, z] of an output row, as a sampled point. *)
Definition out_point (r : Out.row R) : Pcloud.row R :=
  {| Pcloud.x := Out.x r; Pcloud.y := Out.y r; Pcloud.z := Out.z r |}.

(** [apply(..., axis=1)] is read as one call per row of [curv_].  On a frame
    without rows pandas makes no such call and yields an empty key column,
    which is what the row-wise reading gives as well when the cloud is not
    empty. *)
Definition transfer_labels (curv : list (Curv.row R)) (pcloud : list (Pcloud.row R))
  : result (list (Out.row R)) :=
  let curv_ := drop_duplicates curv in
  pcloud_df_idxs <- mapM (fun row => _transfer_gt_labels row pcloud) curv_ ;;
  ret (map label_row (merge_right (combine curv_ pcloud_df_idxs) pcloud)).

End LabelTransfer.

Definition transfer_labels_columns : list string :=
  assign_column "is_corner"
    (assign_column "is_edge"
       (drop_columns ["idx"; "pcloud_df_idx"]%string
          (merge_columns (assign_column "pcloud_df_idx" curv_columns)
                         Pcloud.columns "_orig"))).

(** ** Writing the labelled cloud *)

Inductive cell (R : Type) : Type :=
| CFloat (v : R)
| CLabel (n : nat)   (* a curve label; stored as a float once the column holds NaN *)
| CBool (b : bool)
| CNaN.
Arguments CNaN {R}.

(** A written table: its location, its column names and its rows of cells. *)
Record ParquetFile (R : Type) : Type :=
  { filepath : list string;
    file_columns : list string;
    file_rows : list (list (cell R)) }.

(** [DATA_DIR = pathlib.Path("./data/")], as its list of parts. *)
Definition DATA_DIR : list string := ["data"%string].

(** [pathlib.Path(p).name]: the last part of the path. *)
Definition path_name (p : list string) : string := last p EmptyString.

(** The longest prefix without an underscore, and what follows it. *)
Fixpoint span_no_underscore (s : string) : string * string :=
  match s with
  | EmptyString => (EmptyString, EmptyString)
  | String c s' =>
      if Ascii.eqb c "_" then (EmptyString, s)
      else let '(a, b) := span_no_underscore s' in (String c a, b)
  end.

(** [re.match(r"([^_]+)_", s)], reduced to its group 1: the characters in
    front of the first underscore, when there is at least one of them and an
    underscore does follow; [None] when the pattern does not match. *)
Definition re_match_group1 (s : string) : option string :=
  match span_no_underscore s with
  | (EmptyString, _) => None
  | (_, EmptyString) => None
  | (prefix, String _ _) => Some prefix
  end.

Definition _format_pcloud_filename (feat_path : list string) : result string :=
  match re_match_group1 (path_name feat_path) with
  | None => raise AttributeError   (* None has no attribute [group] *)
  | Some prefix => ret (prefix ++ "_pcloud_points.parq")%string
  end.

Section Driver.
Context {R : Type} `{Scalar R}.

(** The cells of a row, in the order of [transfer_labels_columns]. *)
Definition out_cells (r : Out.row R) : list (cell R) :=
  let opt (o : option R) := match o with Some v => CFloat v | None => CNaN end in
  [ match Out.curv_id r with Some c => CLabel R c | None => CNaN end;
    CBool R (Out.is_corner r);
    opt (Out.x_orig r); opt (Out.y_orig r); opt (Out.z_orig r);
    CFloat (Out.x r); CFloat (Out.y r); CFloat (Out.z r);
    CBool R (Out.is_edge r) ].

(** [write_pcloud]: the effect on the file system is returned as the file
    that was written. *)
Definition write_pcloud (pcloud_ : list (Out.row R))
           (orig_feat_path : list string) : result (ParquetFile R) :=
  filename <- _format_pcloud_filename orig_feat_path ;;
  let filepath := DATA_DIR ++ ["pcloud"%string] ++ [filename] in
  ret {| filepath := filepath;
         file_columns := transfer_labels_columns;
         file_rows := map out_cells pcloud_ |}.

(** [sample_point_cloud], after the external sampler returned its vertex
    matrix: the frame with columns [x, y, z]. *)
Definition sample_point_cloud (sampled : list (@vertex R)) : list (Pcloud.row R) :=
  map (fun v => {| Pcloud.x := fst (fst v); Pcloud.y := snd (fst v);
                   Pcloud.z := snd v |}) sampled.

(** [generate_one_pcloud], with the files already read and the sampler
    already run: [orig_points] and [sampled] are the vertex matrices of the
    mesh and of the sampled layer. *)
Definition generate_one_pcloud (orig_points sampled : list (@vertex R))
           (feat : Feat) (feat_path : list string) : result (ParquetFile R) :=
  let pcloud := sample_point_cloud sampled in
  curv <- mark_edges_and_corners orig_points feat ;;
  pcloud_ <- transfer_labels curv pcloud ;;
  write_pcloud pcloud_ feat_path.

End Driver.

(** ** The deduplication as the specification words it *)

Section FirstSeen.
Context {R : Type}.

(** The entries whose vertex index has not occurred earlier in the list, in
    their original order: the entry at position [k] is kept when no entry
    among the first [k] carries its [idx]. *)
Definition first_seen_subsequence (curv : list (Curv.row R)) : list (Curv.row R) :=
  map snd
      (filter (fun kr =>
                 negb (existsb (Z.eqb (Curv.idx (snd kr)))
                               (map (@Curv.idx R) (firstn (fst kr) curv))))
              (combine (seq 0 (length curv)) curv)).

End FirstSeen.

(** ** Sample data over integer coordinates *)

Definition boundary_point (c : nat) (i : Z) (k : bool) (a b d : Z) : Curv.row Z :=
  {| Curv.curv_id := c; Curv.idx := i; Curv.is_corner := k;
     Curv.x := a; Curv.y := b; Curv.z := d |}.

Definition sample_point (a b d : Z) : Pcloud.row Z :=
  {| Pcloud.x := a; Pcloud.y := b; Pcloud.z := d |}.

(** A six-vertex mesh and one curve through the vertices 2, 5, 2. *)
Definition mesh6 : list (@vertex Z) :=
  [(0, 0, 0); (10, 0, 0); (20, 0, 0); (30, 0, 0); (40, 0, 0); (50, 0, 0)]%Z.

Definition feat_252 : Feat := {| curves := [ {| vert_indices := [2; 5; 2]%Z |} ] |}.


(** The boundary points of [feat_252] over [mesh6]. *)
Definition curv_252 : list (Curv.row Z) :=
  [ boundary_point 0 2 true 20 0 0;
    boundary_point 0 5 false 50 0 0;
    boundary_point 0 2 true 20 0 0 ].

(** Ten sampled points; the one of index 3 sits on vertex 2, the one of index
    7 on vertex 5. *)
Definition cloud10 : list (Pcloud.row Z) :=
  [ sample_point 0 7 0; sample_point 3 9 1; sample_point 11 8 0;
    sample_point 20 0 0; sample_point 28 6 2; sample_point 33 9 9;
    sample_point 41 7 1; sample_point 50 0 0; sample_point 60 9 0;
    sample_point 70 8 3 ].

(** Points at distances 5, 1 and 3 from the origin. *)
Definition cloud_513 : list (Pcloud.row Z) :=
  [ sample_point 5 0 0; sample_point 1 0 0; sample_point 3 0 0 ].

Definition origin_point : Curv.row Z := boundary_point 0 0 false 0 0 0.

(** Two boundary points of distinct vertices, both nearer to the first of
    two sampled points. *)
Definition curv_two : list (Curv.row Z) :=
  [ boundary_point 0 2 true 0 0 0; boundary_point 0 5 false 1 0 0 ].

Definition cloud_pair : list (Pcloud.row Z) :=
  [ sample_point 0 0 0; sample_point 100 0 0 ].

(** The rows returned for [curv_252] and [cloud10]. *)
Definition labelled10 : list (Out.row Z) :=
  Eval vm_compute in
    match transfer_labels curv_252 cloud10 with
    | inr out => out
    | inl _ => []
    end.

Definition feat_path_sample : list string :=
  ["data"; "feat"; "0001"; "00000002_1ffb81a71e5b402e966b9341_features_001.yml"]%string.

(** ** Reading aids for the statements *)

(** The flattened sequence of (curve position, vertex index) pairs: one pair
    per reference, curve after curve. *)
Definition flat_occurrences (s : list (list Z)) : list (nat * Z) :=
  concat (map (fun cv => map (pair (fst cv)) (snd cv))
              (combine (seq 0 (length s)) s)).

(** The position that an ndarray of [n] rows reads for the index [i]. *)
Definition vertex_position (n : nat) (i : Z) : Z :=
  if (i <? 0)%Z then (i + Z.of_nat n)%Z else i.

(** A curve that refers to the last vertex of [mesh6] from the end. *)
Definition feat_wrap : Feat := {| curves := [ {| vert_indices := [2; -1]%Z |} ] |}.

(** The boundary points of [feat_wrap] over [mesh6]. *)
Definition curv_wrap : list (Curv.row Z) :=
  [ boundary_point 0 2 false 20 0 0; boundary_point 0 (-1) false 50 0 0 ].


(** * Properties *)

(** ** Results and row-wise maps *)

Lemma bind_inr_inv (A B : Type) (m : result A) (k : A -> result B) (b : B) :
  bind m k = inr b -> exists a, m = inr a /\ k a = inr b.
Proof. destruct m as [e | a]; simpl; [discriminate | eauto]. Qed.

Section MapM.
Variables A B : Type.
Variable f : A -> result B.

Lemma mapM_cons_inr (a : A) (l : list A) (b : B) (bs : list B) :
  f a = inr b -> mapM f l = inr bs -> mapM f (a :: l) = inr (b :: bs).
Proof. intros Ha Hl. simpl. rewrite Ha. simpl. rewrite Hl. reflexivity. Qed.

Lemma mapM_inr_inv (a : A) (l : list A) (ys : list B) :
  mapM f (a :: l) = inr ys ->
  exists b bs, f a = inr b /\ mapM f l = inr bs /\ ys = b :: bs.
Proof.
  simpl. destruct (f a) as [e | b]; simpl; [discriminate |].
  destruct (mapM f l) as [e | bs]; simpl; [discriminate |].
  intros Heq. injection Heq as <-. exists b, bs. auto.
Qed.

Lemma mapM_length (l : list A) (ys : list B) :
  mapM f l = inr ys -> length ys = length l.
Proof.
  revert ys. induction l as [| a l IH]; intros ys Hm.
  - injection Hm as <-. reflexivity.
  - apply mapM_inr_inv in Hm. destruct Hm as (b & bs & _ & Hl & ->).
    simpl. f_equal. apply IH. exact Hl.
Qed.

(** The keys that a successful row-wise map pairs with the rows. *)
Lemma mapM_combine (d : B) (l : list A) (ys : list B) :
  mapM f l = inr ys ->
  combine l ys = map (fun a => (a, match f a with inr y => y | inl _ => d end)) l.
Proof.
  revert ys. induction l as [| a l IH]; intros ys Hm.
  - reflexivity.
  - apply mapM_inr_inv in Hm. destruct Hm as (b & bs & Ha & Hl & ->).
    simpl. rewrite Ha. f_equal. apply IH. exact Hl.
Qed.

Lemma mapM_In (l : list A) (ys : list B) (a : A) :
  mapM f l = inr ys -> In a l -> exists y, f a = inr y /\ In y ys.
Proof.
  revert ys. induction l as [| a0 l IH]; intros ys Hm Hin; [destruct Hin |].
  apply mapM_inr_inv in Hm. destruct Hm as (b & bs & Ha & Hl & ->).
  destruct Hin as [-> | Hin].
  - exists b. split; [exact Ha | left; reflexivity].
  - destruct (IH bs Hl Hin) as (y & Hy & Hiny). exists y. split; [exact Hy | right; exact Hiny].
Qed.

Lemma mapM_total (l : list A) :
  (forall a, In a l -> exists b, f a = inr b) -> exists ys, mapM f l = inr ys.
Proof.
  induction l as [| a l IH]; intros Hall.
  - exists []. reflexivity.
  - destruct (Hall a (or_introl eq_refl)) as (b & Hb).
    destruct IH as (bs & Hbs); [intros a' Ha'; apply Hall; right; exact Ha' |].
    exists (b :: bs). apply mapM_cons_inr; assumption.
Qed.

(** When every failure of [f] is the exception [e], a failing row makes the
    whole map fail with [e], whichever row fails first. *)
Lemma mapM_raises (e : exn) (l : list A) (a : A) :
  (forall a' e', f a' = inl e' -> e' = e) ->
  In a l -> f a = inl e -> mapM f l = inl e.
Proof.
  intros Honly. induction l as [| a0 l IH]; intros Hin Ha; [destruct Hin |].
  simpl. destruct (f a0) as [e0 | b0] eqn:E0; simpl.
  - rewrite (Honly _ _ E0). reflexivity.
  - destruct Hin as [-> | Hin]; [congruence |].
    rewrite (IH Hin Ha). reflexivity.
Qed.

End MapM.

(** ** Deduplication *)

Section Dedup.
Context {R : Type}.

Lemma drop_duplicates_from_In (l : list (Curv.row R)) (seen : list Z) (r : Curv.row R) :
  In r (drop_duplicates_from seen l) ->
  In r l /\ existsb (Z.eqb (Curv.idx r)) seen = false.
Proof.
  revert seen. induction l as [| a l IH]; intros seen Hin; [destruct Hin |].
  simpl in Hin. destruct (existsb (Z.eqb (Curv.idx a)) seen) eqn:E.
  - destruct (IH _ Hin) as [H1 H2]. split; [right; exact H1 | exact H2].
  - destruct Hin as [<- | Hin].
    + split; [left; reflexivity | exact E].
    + destruct (IH _ Hin) as [H1 H2]. split; [right; exact H1 |].
      simpl in H2. apply orb_false_iff in H2. apply H2.
Qed.

Lemma drop_duplicates_In (curv : list (Curv.row R)) (r : Curv.row R) :
  In r (drop_duplicates curv) -> In r curv.
Proof. intros Hin. apply (drop_duplicates_from_In _ _ _ Hin). Qed.

(** Every vertex index that is not yet seen keeps a representative. *)
Lemma drop_duplicates_from_complete (l : list (Curv.row R)) (seen : list Z) (i : Z) :
  In i (map (@Curv.idx R) l) ->
  existsb (Z.eqb i) seen = false ->
  exists r, In r (drop_duplicates_from seen l) /\ Curv.idx r = i.
Proof.
  revert seen. induction l as [| a l IH]; intros seen Hin Hseen; [destruct Hin |].
  simpl. destruct (Z.eq_dec (Curv.idx a) i) as [Heq | Hne].
  - rewrite Heq, Hseen. exists a. split; [left; reflexivity | exact Heq].
  - destruct Hin as [Hin | Hin]; [contradiction |].
    destruct (existsb (Z.eqb (Curv.idx a)) seen).
    + apply IH; assumption.
    + destruct (IH (Curv.idx a :: seen) Hin) as (r & Hr & Hi).
      * simpl. rewrite Hseen. apply Z.eqb_neq in Hne. rewrite Z.eqb_sym, Hne. reflexivity.
      * exists r. split; [right; exact Hr | exact Hi].
Qed.

Lemma drop_duplicates_complete (curv : list (Curv.row R)) (i : Z) :
  In i (map (@Curv.idx R) curv) ->
  exists r, In r (drop_duplicates curv) /\ Curv.idx r = i.
Proof. intros Hin. apply drop_duplicates_from_complete; [exact Hin | reflexivity]. Qed.

Lemma drop_duplicates_from_NoDup (l : list (Curv.row R)) (seen : list Z) :
  NoDup (map (@Curv.idx R) (drop_duplicates_from seen l)).
Proof.
  revert seen. induction l as [| a l IH]; intros seen; [constructor |].
  simpl. destruct (existsb (Z.eqb (Curv.idx a)) seen); [apply IH |].
  simpl. constructor; [| apply IH].
  intros Hin. apply in_map_iff in Hin. destruct Hin as (r & Hidx & Hr).
  apply drop_duplicates_from_In in Hr. destruct Hr as [_ Hr].
  simpl in Hr. rewrite Hidx, Z.eqb_refl in Hr. discriminate.
Qed.

Lemma drop_duplicates_NoDup (curv : list (Curv.row R)) :
  NoDup (map (@Curv.idx R) (drop_duplicates curv)).
Proof. apply drop_duplicates_from_NoDup. Qed.

Lemma drop_duplicates_nonempty (curv : list (Curv.row R)) :
  curv <> [] -> drop_duplicates curv <> [].
Proof. destruct curv as [| a l]; [congruence |]. intros _. discriminate. Qed.

(** The loop of [drop_duplicates_from], started after the rows [pre] with a
    [seen] set holding exactly their indices, keeps the rows whose index
    occurs at no earlier position. *)
Lemma drop_duplicates_from_positions (l pre : list (Curv.row R)) (seen : list Z) :
  (forall i, existsb (Z.eqb i) seen = existsb (Z.eqb i) (map (@Curv.idx R) pre)) ->
  drop_duplicates_from seen l =
  map snd
      (filter (fun kr =>
                 negb (existsb (Z.eqb (Curv.idx (snd kr)))
                               (map (@Curv.idx R) (firstn (fst kr) (pre ++ l)))))
              (combine (seq (length pre) (length l)) l)).
Proof.
  revert pre seen. induction l as [| a l IH]; intros pre seen Hseen; [reflexivity |].
  assert (Hpre : firstn (length pre) (pre ++ a :: l) = pre).
  { rewrite firstn_app, Nat.sub_diag, firstn_all. simpl. apply app_nil_r. }
  assert (Hshift : pre ++ a :: l = (pre ++ [a]) ++ l).
  { rewrite <- app_assoc. reflexivity. }
  assert (Hlen : S (length pre) = length (pre ++ [a])).
  { rewrite length_app. simpl. lia. }
  cbn [drop_duplicates_from length seq combine filter fst snd].
  rewrite Hpre, <- Hseen.
  destruct (existsb (Z.eqb (Curv.idx a)) seen) eqn:E; cbn [negb map snd].
  - rewrite Hshift, Hlen. apply IH.
    intros i. rewrite map_app, existsb_app, <- Hseen. simpl.
    destruct (Z.eqb_spec i (Curv.idx a)) as [-> | _].
    + rewrite E. reflexivity.
    + rewrite !orb_false_r. reflexivity.
  - f_equal. rewrite Hshift, Hlen. apply IH.
    intros i. rewrite map_app, existsb_app, <- Hseen. simpl.
    rewrite orb_false_r. apply orb_comm.
Qed.

(** C10: the deduplication of [transfer_labels] keeps, for every vertex
    index, the entry seen first: the deduplicated list is the subsequence of
    the entries whose vertex index has not occurred earlier, in their
    original order. *)
Theorem C10_drop_duplicates_keeps_first_seen (curv : list (Curv.row R)) :
  drop_duplicates curv = first_seen_subsequence curv.
Proof.
  unfold drop_duplicates, first_seen_subsequence.
  apply (drop_duplicates_from_positions curv []).
  intros i. reflexivity.
Qed.

End Dedup.

(** ** Feature Extractor *)

Lemma mapM_app_inv (A B : Type) (f : A -> result B) (l1 l2 : list A) (ys : list B) :
  mapM f (l1 ++ l2) = inr ys ->
  exists ys1 ys2, mapM f l1 = inr ys1 /\ mapM f l2 = inr ys2 /\ ys = ys1 ++ ys2.
Proof.
  revert ys. induction l1 as [| a l1 IH]; intros ys Hm.
  - exists [], ys. auto.
  - simpl app in Hm. apply mapM_inr_inv in Hm. destruct Hm as (b & bs & Ha & Hl & ->).
    destruct (IH _ Hl) as (ys1 & ys2 & H1 & H2 & ->).
    exists (b :: ys1), ys2. split; [apply mapM_cons_inr; assumption | auto].
Qed.

Lemma getitem_raises_only (A : Type) (a : list A) (i : Z) (e : exn) :
  getitem a i = inl e -> e = IndexError.
Proof.
  unfold getitem.
  destruct (_ && _)%bool; [destruct (nth_error _ _) |]; unfold ret, raise; congruence.
Qed.


Lemma cast_entry_inr (cid : nat) (i : Z) (b : nat * Z) :
  cast_entry (cid, Some i) = inr b -> b = (cid, i) /\ fits_int64 i = true.
Proof.
  unfold cast_entry. cbn [fst snd]. destruct (fits_int64 i); [| discriminate].
  unfold ret. intros Heq. injection Heq as <-. auto.
Qed.

(** A successful cast after [explode] returns the flattened sequence of the
    vertex indices, with the curve labels attached. *)
Lemma astype_int_explode_from (s : list (list Z)) (n : nat) (res : list (nat * Z)) :
  astype_int
    (concat
       (map (fun '(cid, vs) =>
               match vs with
               | [] => [(cid, None)]
               | _ => map (fun v => (cid, Some v)) vs
               end)
            (combine (seq n (length s)) s))) = inr res ->
  map snd res = concat s.
Proof.
  unfold astype_int. revert n res. induction s as [| vs s IH]; intros n res Hm.
  - injection Hm as <-. reflexivity.
  - cbn [length seq combine map concat] in Hm.
    apply mapM_app_inv in Hm. destruct Hm as (r1 & r2 & H1 & H2 & ->).
    rewrite map_app. cbn [concat]. f_equal; [| apply (IH (S n)); exact H2].
    destruct vs as [| v vs]; [discriminate |].
    clear - H1. revert H1. generalize (v :: vs). clear. intros l. revert r1.
    induction l as [| a l IHl]; intros r1 H1.
    + injection H1 as <-. reflexivity.
    + cbn [map] in H1. apply mapM_inr_inv in H1.
      destruct H1 as (b & bs & Ha & Hl & ->).
      apply cast_entry_inr in Ha. destruct Ha as [-> _].
      simpl. f_equal. apply IHl. exact Hl.
Qed.

Lemma astype_int_explode (s : list (list Z)) (res : list (nat * Z)) :
  astype_int (explode s) = inr res -> map snd res = concat s.
Proof. apply astype_int_explode_from. Qed.

(** The cast succeeds when no curve is empty and every index fits int64. *)
Lemma astype_int_explode_total (s : list (list Z)) :
  Forall (fun vs => vs <> []) s ->
  Forall (fun i => fits_int64 i = true) (concat s) ->
  exists res, astype_int (explode s) = inr res.
Proof.
  intros Hne Hfits. apply mapM_total. intros [cid v] Hin.
  unfold explode in Hin. apply in_concat in Hin. destruct Hin as (g & Hg & Hin).
  apply in_map_iff in Hg. destruct Hg as ([c vs] & <- & Hc).
  apply in_combine_r in Hc. rewrite Forall_forall in Hne. specialize (Hne _ Hc) as Hvs.
  destruct vs as [| v0 vs]; [congruence |].
  apply in_map_iff in Hin. destruct Hin as (w & Hw & Hwin). injection Hw as <- <-.
  unfold cast_entry. cbn [fst snd].
  rewrite Forall_forall in Hfits. rewrite (Hfits w).
  - eexists. reflexivity.
  - apply in_concat. exists (v0 :: vs). auto.
Qed.

Lemma to_edge_frame_idx (s : list (nat * Z)) :
  map Edge.idx (to_edge_frame s) = map snd s.
Proof.
  unfold to_edge_frame. rewrite map_map. apply map_ext. intros [c i]. reflexivity.
Qed.

Lemma _mark_corner_idx (edge : list Edge.row) :
  map Corner.idx (_mark_corner edge) = map Edge.idx edge.
Proof. unfold _mark_corner. rewrite map_map. reflexivity. Qed.

Lemma _mark_corner_flag (edge : list Edge.row) (r : Corner.row) :
  In r (_mark_corner edge) ->
  Corner.is_corner r = (1 <? value_counts (map Corner.idx (_mark_corner edge)) (Corner.idx r)).
Proof.
  rewrite _mark_corner_idx. unfold _mark_corner. intros Hin.
  apply in_map_iff in Hin. destruct Hin as (e & <- & _). reflexivity.
Qed.

Section FeatureExtractorFacts.
Context {R : Type}.

(** Assembling the frame from the three coordinate columns keeps the columns
    that were there. *)
Lemma assemble_keeps (edge : list Corner.row) (xs ys zs : list R) :
  length xs = length edge -> length ys = length edge -> length zs = length edge ->
  map (fun c => (Curv.idx c, Curv.is_corner c))
      (map (fun '(r, (cx, (cy, cz))) =>
              {| Curv.curv_id := Corner.curv_id r;
                 Curv.idx := Corner.idx r;
                 Curv.is_corner := Corner.is_corner r;
                 Curv.x := cx; Curv.y := cy; Curv.z := cz |})
           (combine edge (combine xs (combine ys zs))))
  = map (fun r => (Corner.idx r, Corner.is_corner r)) edge.
Proof.
  revert xs ys zs. induction edge as [| r edge IH]; intros xs ys zs Hx Hy Hz.
  - reflexivity.
  - destruct xs as [| cx xs]; [discriminate |].
    destruct ys as [| cy ys]; [discriminate |].
    destruct zs as [| cz zs]; [discriminate |].
    simpl. f_equal. apply IH; simpl in *; lia.
Qed.

Lemma _merge_coords_keeps (edge : list Corner.row) (orig_points : list (@vertex R))
      (curv : list (Curv.row R)) :
  _merge_coords edge orig_points = inr curv ->
  map (fun c => (Curv.idx c, Curv.is_corner c)) curv
  = map (fun r => (Corner.idx r, Corner.is_corner r)) edge.
Proof.
  unfold _merge_coords. intros Hm.
  apply bind_inr_inv in Hm. destruct Hm as (xs & Ex & Hm).
  apply bind_inr_inv in Hm. destruct Hm as (ys & Ey & Hm).
  apply bind_inr_inv in Hm. destruct Hm as (zs & Ez & Hm).
  unfold ret in Hm. injection Hm as <-.
  apply mapM_length in Ex, Ey, Ez. rewrite length_map in Ex, Ey, Ez.
  apply assemble_keeps; assumption.
Qed.


(** What a successful run of the extractor returns, column by column. *)
Lemma mark_edges_and_corners_inv (orig_points : list (@vertex R)) (feat : Feat)
      (curv : list (Curv.row R)) :
  mark_edges_and_corners orig_points feat = inr curv ->
  map (@Curv.idx R) curv = concat (map vert_indices (curves feat)) /\
  forall r, In r curv ->
            Curv.is_corner r = (1 <? value_counts (map (@Curv.idx R) curv) (Curv.idx r)).
Proof.
  unfold mark_edges_and_corners. destruct (curves feat) as [| c cs]; [discriminate |].
  destruct (astype_int _) as [e | res] eqn:Ea; [discriminate |]. cbn [bind].
  intros Hm. apply _merge_coords_keeps in Hm.
  assert (Hidx : map (@Curv.idx R) curv = map Corner.idx (_mark_corner (to_edge_frame res))).
  { apply (f_equal (map fst)) in Hm. rewrite !map_map in Hm. exact Hm. }
  split.
  - rewrite Hidx, _mark_corner_idx, to_edge_frame_idx. apply astype_int_explode. exact Ea.
  - intros r Hr.
    assert (Hpair : In (Curv.idx r, Curv.is_corner r)
                       (map (fun c => (Corner.idx c, Corner.is_corner c))
                            (_mark_corner (to_edge_frame res)))).
    { rewrite <- Hm. apply (in_map (fun c => (Curv.idx c, Curv.is_corner c))). exact Hr. }
    apply in_map_iff in Hpair. destruct Hpair as (c0 & Hc0 & Hin0).
    assert (Hi : Corner.idx c0 = Curv.idx r) by congruence.
    assert (Hk : Corner.is_corner c0 = Curv.is_corner r) by congruence.
    rewrite Hidx, <- Hi, <- Hk. apply _mark_corner_flag. exact Hin0.
Qed.

(** C4: in the output of the Feature Extractor an entry is a corner iff its
    vertex index occurs more than once in the flattened sequence of vertex
    indices; hence, after the deduplication by vertex index of the Transfer
    Engine, every vertex index that occurred more than once still has its
    entry, and that entry is a corner. *)
Theorem C4_corner_iff_repeated_and_kept_by_dedup
        (orig_points : list (@vertex R)) (feat : Feat) (curv : list (Curv.row R))
        (Hrun : mark_edges_and_corners orig_points feat = inr curv) :
  map (@Curv.idx R) curv = concat (map vert_indices (curves feat)) /\
  (forall r, In r curv ->
             (Curv.is_corner r = true <->
              1 < count_occ Z.eq_dec (concat (map vert_indices (curves feat))) (Curv.idx r))) /\
  (forall i, 1 < count_occ Z.eq_dec (concat (map vert_indices (curves feat))) i ->
             (exists r, In r (drop_duplicates curv) /\ Curv.idx r = i) /\
             (forall r, In r (drop_duplicates curv) -> Curv.idx r = i ->
                        Curv.is_corner r = true)).
Proof.
  destruct (mark_edges_and_corners_inv _ _ Hrun) as [Hidx Hflag].
  assert (Hiff : forall r, In r curv ->
                           (Curv.is_corner r = true <->
                            1 < count_occ Z.eq_dec (concat (map vert_indices (curves feat)))
                                          (Curv.idx r))).
  { intros r Hr. rewrite (Hflag r Hr), Hidx. unfold value_counts. apply Nat.ltb_lt. }
  split; [exact Hidx |]. split; [exact Hiff |].
  intros i Hcount. split.
  - apply drop_duplicates_complete. rewrite Hidx.
    apply (count_occ_In Z.eq_dec). lia.
  - intros r Hr Hi. apply Hiff; [apply drop_duplicates_In; exact Hr |].
    rewrite Hi. exact Hcount.
Qed.


End FeatureExtractorFacts.

(** ** Nearest neighbour *)

Section NearestNeighbour.
Context {R : Type} `{Scalar R}.

(** The order of the scalars: total and transitive, as [<=] is on the float64
    values that are not NaN. *)
Hypothesis Rleb_total : forall a b : R, Rleb a b = true \/ Rleb b a = true.
Hypothesis Rleb_trans : forall a b c : R, Rleb a b = true -> Rleb b c = true -> Rleb a c = true.

(** The invariant of the scan: [pre] is the part of the array already seen,
    [bv] its minimum and [best] the first position where [pre] holds it. *)
Lemma argmin_from_first_minimum (l pre : list R) (best : nat) (bv : R) :
  nth_error pre best = Some bv ->
  (forall v, In v pre -> Rleb bv v = true) ->
  (forall j v, j < best -> nth_error pre j = Some v -> Rleb v bv = false) ->
  exists m,
    nth_error (pre ++ l) (argmin_from best bv (length pre) l) = Some m /\
    (forall v, In v (pre ++ l) -> Rleb m v = true) /\
    (forall j v, j < argmin_from best bv (length pre) l ->
                 nth_error (pre ++ l) j = Some v -> Rleb v m = false).
Proof.
  revert pre best bv. induction l as [| v l IH]; intros pre best bv Hbest Hmin Hfirst.
  - rewrite app_nil_r. exists bv. simpl. auto.
  - assert (Hlt : best < length pre) by (apply nth_error_Some; congruence).
    assert (Hshift : pre ++ v :: l = (pre ++ [v]) ++ l) by (rewrite <- app_assoc; reflexivity).
    assert (Hlen : S (length pre) = length (pre ++ [v])) by (rewrite length_app; simpl; lia).
    cbn [argmin_from]. rewrite Hshift, Hlen.
    destruct (Rleb bv v) eqn:E.
    + apply IH.
      * rewrite nth_error_app1 by exact Hlt. exact Hbest.
      * intros u Hu. apply in_app_or in Hu. destruct Hu as [Hu | [<- | []]]; auto.
      * intros j u Hj Hu. rewrite nth_error_app1 in Hu by lia. eauto.
    + assert (Hvb : Rleb v bv = true) by (destruct (Rleb_total v bv); congruence).
      apply IH.
      * rewrite nth_error_app2, Nat.sub_diag by lia. reflexivity.
      * intros u Hu. apply in_app_or in Hu. destruct Hu as [Hu | [<- | []]].
        -- apply Rleb_trans with bv; auto.
        -- destruct (Rleb_total v v); assumption.
      * intros j u Hj Hu. rewrite nth_error_app1 in Hu by exact Hj.
        destruct (Rleb u v) eqn:Euv; [| reflexivity].
        apply nth_error_In in Hu. rewrite (Rleb_trans _ _ _ (Hmin u Hu) Euv) in E.
        discriminate.
Qed.

Lemma argmin_first_minimum (a : list R) :
  a <> [] ->
  exists i m,
    argmin a = inr i /\ nth_error a i = Some m /\
    (forall v, In v a -> Rleb m v = true) /\
    (forall j v, j < i -> nth_error a j = Some v -> Rleb v m = false).
Proof.
  destruct a as [| v l]; [congruence |]. intros _.
  destruct (@argmin_from_first_minimum l [v] 0 v) as (m & Hm & Hmin & Hfirst).
  - reflexivity.
  - intros u [<- | []]. destruct (Rleb_total v v); assumption.
  - intros j u Hj. lia.
  - exists (argmin_from 0 v 1 l), m. split; [reflexivity |]. auto.
Qed.


End NearestNeighbour.

(** ** Label transfer *)

Lemma filter_map_comm (A B : Type) (g : A -> B) (P : B -> bool) (l : list A) :
  filter P (map g l) = map g (filter (fun a => P (g a)) l).
Proof.
  induction l as [| a l IH]; [reflexivity |].
  simpl. destruct (P (g a)); simpl; rewrite IH; reflexivity.
Qed.

Lemma filter_unique (A : Type) (P : A -> bool) (l : list A) (b : A) :
  NoDup l -> In b l -> P b = true ->
  (forall b', In b' l -> P b' = true -> b' = b) ->
  filter P l = [b].
Proof.
  induction l as [| a l IH]; intros Hnd Hin Hb Huniq; [destruct Hin |].
  apply NoDup_cons_iff in Hnd. destruct Hnd as [Hnotin Hnd].
  simpl. destruct (P a) eqn:Ea.
  - assert (a = b) by (apply Huniq; [left; reflexivity | exact Ea]). subst a.
    f_equal. destruct (filter P l) as [| c rest] eqn:Ef; [reflexivity |].
    assert (Hc : In c (filter P l)) by (rewrite Ef; left; reflexivity).
    apply filter_In in Hc. destruct Hc as [Hc Hpc].
    rewrite (Huniq c (or_intror Hc) Hpc) in Hc. contradiction.
  - destruct Hin as [-> | Hin]; [congruence |].
    apply IH; auto. intros b' Hb'. apply Huniq. right. exact Hb'.
Qed.

Lemma filter_key_at_most_one (A : Type) (l : list (A * nat)) (j : nat) :
  NoDup (map snd l) -> length (filter (fun m => snd m =? j) l) <= 1.
Proof.
  induction l as [| a l IH]; intros Hnd; [simpl; lia |].
  simpl in Hnd. apply NoDup_cons_iff in Hnd. destruct Hnd as [Hnotin Hnd].
  simpl. destruct (Nat.eqb_spec (snd a) j) as [Heq | _]; [| apply IH; exact Hnd].
  destruct (filter (fun m => snd m =? j) l) as [| c rest] eqn:Ef; [simpl; lia |].
  assert (Hc : In c (filter (fun m => snd m =? j) l)) by (rewrite Ef; left; reflexivity).
  apply filter_In in Hc. destruct Hc as [Hc Hk]. apply Nat.eqb_eq in Hk.
  exfalso. apply Hnotin. rewrite Heq, <- Hk. apply in_map. exact Hc.
Qed.

Lemma nth_error_combine_seq (A : Type) (l : list A) (s j : nat) (a : A) :
  nth_error l j = Some a ->
  nth_error (combine (seq s (length l)) l) j = Some (s + j, a).
Proof.
  revert s j. induction l as [| b l IH]; intros s j Hj; [destruct j; discriminate |].
  destruct j as [| j]; simpl in *.
  - injection Hj as <-. rewrite Nat.add_0_r. reflexivity.
  - rewrite (IH (S s) j Hj). f_equal. f_equal. lia.
Qed.

Lemma combine_map_snd_seq (A : Type) (l : list A) (s : nat) :
  map snd (combine (seq s (length l)) l) = l.
Proof.
  revert s. induction l as [| a l IH]; intros s; [reflexivity |].
  simpl. f_equal. apply IH.
Qed.

Lemma concat_singletons (A B : Type) (g : A -> list B) (h : A -> B) (l : list A) :
  (forall a, In a l -> g a = [h a]) -> concat (map g l) = map h l.
Proof.
  induction l as [| a l IH]; intros Hg; [reflexivity |].
  simpl. rewrite (Hg a (or_introl eq_refl)), IH; [reflexivity |].
  intros a' Ha'. apply Hg. right. exact Ha'.
Qed.

Section LabelTransferFacts.
Context {R : Type} `{Scalar R}.

Lemma out_point_label_row (m : option (Curv.row R) * Pcloud.row R) :
  out_point (label_row m) = snd m.
Proof. destruct m as [c [px py pz]]. reflexivity. Qed.

Lemma transfer_labels_inv (curv : list (Curv.row R)) (pcloud : list (Pcloud.row R))
      (out : list (Out.row R)) :
  transfer_labels curv pcloud = inr out ->
  exists idxs,
    mapM (fun row => _transfer_gt_labels row pcloud) (drop_duplicates curv) = inr idxs /\
    out = map label_row (merge_right (combine (drop_duplicates curv) idxs) pcloud).
Proof.
  unfold transfer_labels. intros Hrun. apply bind_inr_inv in Hrun.
  destruct Hrun as (idxs & Hidxs & Hout). exists idxs. split; [exact Hidxs |].
  unfold ret in Hout. congruence.
Qed.

(** The rows emitted for a point, read on the rows of the left frame whose
    key is the index of the point. *)
Lemma rows_of_point_keyed (key : Curv.row R -> nat) (l : list (Curv.row R))
      (j : nat) (p : Pcloud.row R) :
  rows_of_point (map (fun b => (b, key b)) l) j p =
  match filter (fun b => key b =? j) l with
  | [] => [(None, p)]
  | ms => map (fun b => (Some b, p)) ms
  end.
Proof.
  unfold rows_of_point. rewrite filter_map_comm. cbn [snd].
  destruct (filter (fun b => key b =? j) l) as [| b ms]; [reflexivity |].
  cbn [map fst]. f_equal. rewrite map_map. reflexivity.
Qed.

Lemma rows_of_point_nonempty (left : list (Curv.row R * nat)) (j : nat) (p : Pcloud.row R) :
  rows_of_point left j p <> [].
Proof.
  unfold rows_of_point. destruct (filter _ left); discriminate.
Qed.

Lemma rows_of_point_snd (left : list (Curv.row R * nat)) (j : nat) (p : Pcloud.row R)
      (m : option (Curv.row R) * Pcloud.row R) :
  In m (rows_of_point left j p) -> snd m = p.
Proof.
  unfold rows_of_point. destruct (filter _ left) as [| c ms].
  - intros [<- | []]. reflexivity.
  - intros Hin. apply in_map_iff in Hin. destruct Hin as (b & <- & _). reflexivity.
Qed.

(** Without two equal keys on the left, the join emits exactly one row per
    sampled point. *)
Lemma merge_right_without_collision (left : list (Curv.row R * nat))
      (pcloud : list (Pcloud.row R)) :
  NoDup (map snd left) ->
  map snd (merge_right left pcloud) = pcloud.
Proof.
  intros Hnd. unfold merge_right.
  rewrite (@concat_singletons _ _ _
             (fun jp => (match filter (fun m => snd m =? fst jp) left with
                         | [] => None
                         | m :: _ => Some (fst m)
                         end, snd jp))).
  - rewrite map_map. cbn [snd].
    rewrite <- (map_map snd (fun p : Pcloud.row R => p)), map_id.
    apply combine_map_snd_seq.
  - intros [j p] _. unfold rows_of_point. cbn [fst snd].
    pose proof (filter_key_at_most_one left j Hnd) as Hlen.
    destruct (filter (fun m => snd m =? j) left) as [| m [| m' ms]]; simpl in *;
      [reflexivity | reflexivity | lia].
Qed.

End LabelTransferFacts.

Lemma map_snd_combine_eq (A B : Type) (l : list A) (ys : list B) :
  length ys = length l -> map snd (combine l ys) = ys.
Proof.
  revert ys. induction l as [| a l IH]; intros [| y ys] Hlen; try discriminate; [reflexivity |].
  simpl. f_equal. apply IH. simpl in Hlen. lia.
Qed.

Section LabelTransferClaims.
Context {R : Type} `{Scalar R}.

Lemma merge_right_nil (pcloud : list (Pcloud.row R)) :
  merge_right [] pcloud = map (fun p => (None, p)) pcloud.
Proof.
  unfold merge_right.
  rewrite (@concat_singletons _ _ _ (fun jp => (None, snd jp))).
  - rewrite <- (map_map snd (fun p : Pcloud.row R => (@None (Curv.row R), p))).
    rewrite combine_map_snd_seq. reflexivity.
  - intros [j p] _. reflexivity.
Qed.

(** Without two boundary points sharing a nearest point, the output lists
    the sampled points one by one, in order. *)
Lemma transfer_labels_without_collision (curv : list (Curv.row R))
      (pcloud : list (Pcloud.row R)) (idxs : list nat) (out : list (Out.row R)) :
  mapM (fun row => _transfer_gt_labels row pcloud) (drop_duplicates curv) = inr idxs ->
  NoDup idxs ->
  transfer_labels curv pcloud = inr out ->
  map out_point out = pcloud.
Proof.
  intros Hidxs Hnd Hrun. apply transfer_labels_inv in Hrun.
  destruct Hrun as (idxs' & Hidxs' & ->).
  assert (idxs' = idxs) by congruence. subst idxs'.
  rewrite map_map.
  rewrite (map_ext _ snd) by (intros m; apply out_point_label_row).
  apply merge_right_without_collision.
  rewrite map_snd_combine_eq; [exact Hnd | apply (mapM_length _ _ Hidxs)].
Qed.

(** C5: in every row that the Transfer Engine returns, [is_corner] implies
    [is_edge]. *)
Theorem C5_corner_implies_edge
        (curv : list (Curv.row R)) (pcloud : list (Pcloud.row R)) (out : list (Out.row R))
        (Hrun : transfer_labels curv pcloud = inr out) :
  Forall (fun r => Out.is_corner r = true -> Out.is_edge r = true) out.
Proof.
  apply transfer_labels_inv in Hrun. destruct Hrun as (idxs & _ & ->).
  apply Forall_map, Forall_forall. intros [[b |] p] _; simpl; [reflexivity | discriminate].
Qed.

(** C6: with no boundary point at all and a cloud of N >= 1 points, the
    Transfer Engine succeeds and returns N rows, the sampled points in order,
    every one with [is_edge = false] and [is_corner = false]. *)
Theorem C6_empty_boundary_all_false
        (pcloud : list (Pcloud.row R)) (Hn : 1 <= length pcloud) :
  exists out,
    transfer_labels [] pcloud = inr out /\
    length out = length pcloud /\
    map out_point out = pcloud /\
    Forall (fun r => Out.is_edge r = false /\ Out.is_corner r = false) out.
Proof.
  exists (map label_row (map (fun p => (None, p)) pcloud)).
  split; [| split; [| split]].
  - unfold transfer_labels. cbn. rewrite merge_right_nil. reflexivity.
  - rewrite !length_map. reflexivity.
  - rewrite !map_map. rewrite (map_ext _ (fun p => p)); [apply map_id |].
    intros [px py pz]. reflexivity.
  - apply Forall_map, Forall_map, Forall_forall. intros p _. split; reflexivity.
Qed.

(** C7: with an empty cloud and at least one boundary point the Transfer
    Engine raises (ValueError, from the argmin over an empty array: the
    EmptyPointCloud of the error taxonomy), and the driver, which writes only
    after the transfer, writes no file. *)
Theorem C7_empty_cloud_raises
        (curv : list (Curv.row R)) (Hn : 1 <= length curv) :
  transfer_labels curv [] = inl ValueError /\
  (forall (orig_points : list (@vertex R)) (feat : Feat) (feat_path : list string),
      mark_edges_and_corners orig_points feat = inr curv ->
      generate_one_pcloud orig_points [] feat feat_path = inl ValueError).
Proof.
  assert (Hfail : transfer_labels curv [] = inl ValueError).
  { assert (Hne : curv <> []) by (destruct curv; [simpl in Hn; lia | discriminate]).
    unfold transfer_labels. pose proof (drop_duplicates_nonempty Hne) as Hd.
    destruct (drop_duplicates curv) as [| b l]; [congruence | reflexivity]. }
  split; [exact Hfail |].
  intros orig_points feat feat_path Hmark. unfold generate_one_pcloud.
  rewrite Hmark. cbn [bind sample_point_cloud map]. rewrite Hfail. reflexivity.
Qed.

(** C2: the output splits into one non-empty group of rows per sampled
    point, in the order of the cloud, each row carrying the coordinates of its
    point.  In the group of the point of index [j], [is_edge] is true iff [j]
    is the nearest neighbour of at least one deduplicated boundary point; a
    point that is the nearest neighbour of none has a single row, with
    [is_edge = false] and [is_corner = false]; a point that is the nearest
    neighbour of exactly one has a single row, with [is_edge = true] and the
    [is_corner] of that boundary point. *)
Theorem C2_labels_follow_nearest_neighbours
        (curv : list (Curv.row R)) (pcloud : list (Pcloud.row R)) (out : list (Out.row R))
        (Hrun : transfer_labels curv pcloud = inr out) :
  exists groups : list (list (Out.row R)),
    out = concat groups /\
    length groups = length pcloud /\
    forall j p, nth_error pcloud j = Some p ->
      exists g,
        nth_error groups j = Some g /\ g <> [] /\
        (forall r, In r g -> out_point r = p) /\
        (forall r, In r g ->
           (Out.is_edge r = true <->
            exists b, In b (drop_duplicates curv) /\ _transfer_gt_labels b pcloud = inr j)) /\
        ((forall b, In b (drop_duplicates curv) -> _transfer_gt_labels b pcloud <> inr j) ->
         exists r, g = [r] /\ Out.is_edge r = false /\ Out.is_corner r = false) /\
        (forall b, In b (drop_duplicates curv) -> _transfer_gt_labels b pcloud = inr j ->
           (forall b', In b' (drop_duplicates curv) ->
                       _transfer_gt_labels b' pcloud = inr j -> b' = b) ->
           exists r, g = [r] /\ Out.is_edge r = true /\ Out.is_corner r = Curv.is_corner b).
Proof.
  apply transfer_labels_inv in Hrun. destruct Hrun as (idxs & Hidxs & ->).
  set (nn := fun row : Curv.row R => _transfer_gt_labels row pcloud) in *.
  set (key := fun b => match nn b with inr y => y | inl _ => 0 end).
  set (dedup := drop_duplicates curv) in *.
  assert (Hleft : combine dedup idxs = map (fun b => (b, key b)) dedup)
    by (apply (mapM_combine _ 0 _ Hidxs)).
  assert (Hkey : forall b, In b dedup -> nn b = inr (key b)).
  { intros b Hb. destruct (mapM_In _ _ _ Hidxs Hb) as (y & Hy & _).
    unfold key. rewrite Hy. reflexivity. }
  assert (Hmatch : forall j b, In b (filter (fun b => key b =? j) dedup) <->
                               In b dedup /\ nn b = inr j).
  { intros j b. rewrite filter_In. split; intros [Hb Hj]; split; try exact Hb.
    - apply Nat.eqb_eq in Hj. rewrite (Hkey b Hb), Hj. reflexivity.
    - apply Nat.eqb_eq. rewrite (Hkey b Hb) in Hj. congruence. }
  rewrite Hleft. unfold merge_right.
  exists (map (fun jp => map label_row
                             (rows_of_point (map (fun b => (b, key b)) dedup) (fst jp) (snd jp)))
              (combine (seq 0 (length pcloud)) pcloud)).
  split; [rewrite concat_map, map_map; reflexivity |].
  split; [rewrite length_map, length_combine, length_seq; apply Nat.min_id |].
  intros j p Hp. eexists. split.
  { rewrite nth_error_map, (nth_error_combine_seq _ 0 _ Hp). reflexivity. }
  cbn [fst snd Nat.add]. split; [| split; [| split; [| split]]].
  - intros Hnil. apply map_eq_nil in Hnil. exact (rows_of_point_nonempty _ _ _ Hnil).
  - intros r Hr. apply in_map_iff in Hr. destruct Hr as (m & <- & Hm).
    rewrite out_point_label_row. apply (rows_of_point_snd _ _ _ _ Hm).
  - intros r Hr. rewrite rows_of_point_keyed in Hr.
    destruct (filter (fun b => key b =? j) dedup) as [| b0 ms] eqn:Ef.
    + destruct Hr as [<- | []]. simpl. split; [discriminate |].
      intros (b & Hb & Hj). exfalso.
      assert (Hin : In b []) by (rewrite <- Ef; apply Hmatch; auto). destruct Hin.
    + apply in_map_iff in Hr. destruct Hr as (m & <- & Hm).
      apply in_map_iff in Hm. destruct Hm as (b & <- & _). simpl.
      split; [intros _ | reflexivity].
      exists b0. apply Hmatch. rewrite Ef. left. reflexivity.
  - intros Hnone. rewrite rows_of_point_keyed.
    destruct (filter (fun b => key b =? j) dedup) as [| b0 ms] eqn:Ef.
    + eexists. split; [reflexivity |]. split; reflexivity.
    + exfalso. assert (Hb0 : In b0 dedup /\ nn b0 = inr j).
      { apply Hmatch. rewrite Ef. left. reflexivity. }
      destruct Hb0 as [Hb0 Hj]. exact (Hnone b0 Hb0 Hj).
  - intros b Hb Hj Huniq. rewrite rows_of_point_keyed.
    rewrite (@filter_unique _ (fun b => key b =? j) dedup b).
    + eexists. split; [reflexivity |]. simpl. split; [reflexivity |].
      destruct (Curv.is_corner b); reflexivity.
    + apply (NoDup_map_inv (@Curv.idx R)). apply drop_duplicates_NoDup.
    + exact Hb.
    + apply Nat.eqb_eq. change (nn b = inr j) in Hj.
      rewrite (Hkey b Hb) in Hj. congruence.
    + intros b' Hb' Hk. apply Huniq; [exact Hb' |].
      apply Nat.eqb_eq in Hk. change (nn b' = inr j).
      rewrite (Hkey b' Hb'), Hk. reflexivity.
Qed.

End LabelTransferClaims.

(** ** The written file *)

Lemma span_no_underscore_token (prefix rest : string) :
  (forall c, In c (list_ascii_of_string prefix) -> c <> "_"%char) ->
  span_no_underscore (prefix ++ String "_" rest) = (prefix, String "_" rest).
Proof.
  induction prefix as [| c prefix IH]; intros Htoken; [reflexivity |].
  cbn [String.append span_no_underscore].
  destruct (Ascii.eqb_spec c "_") as [Heq | _].
  - exfalso. apply (Htoken c); [left; reflexivity | exact Heq].
  - rewrite IH; [reflexivity |]. intros c' Hc'. apply Htoken. right. exact Hc'.
Qed.

Lemma _format_pcloud_filename_token (feat_path : list string) (prefix rest : string) :
  path_name feat_path = (prefix ++ "_" ++ rest)%string ->
  prefix <> EmptyString ->
  (forall c, In c (list_ascii_of_string prefix) -> c <> "_"%char) ->
  _format_pcloud_filename feat_path = inr (prefix ++ "_pcloud_points.parq")%string.
Proof.
  intros Hname Hsome Htoken. unfold _format_pcloud_filename, re_match_group1.
  rewrite Hname. cbn [String.append].
  rewrite span_no_underscore_token by exact Htoken.
  destruct prefix; [congruence | reflexivity].
Qed.

Section WrittenFile.
Context {R : Type} `{Scalar R}.

(** C8, as the code has it: the file is written at
    [data/pcloud/{prefix}_pcloud_points.parq], where prefix is the non-empty
    leading token of the feature file name up to its first underscore; its
    columns are [curv_id, is_corner, x_orig, y_orig, z_orig, x, y, z,
    is_edge], which include [x, y, z, is_edge, is_corner]; it has one row of
    nine cells per row of the frame returned by the Transfer Engine, hence one
    per sampled point when no two boundary points share their nearest
    sampled point. *)
Theorem C8_written_file_columns_and_name
        (pcloud_ : list (Out.row R)) (feat_path : list string) (prefix rest : string)
        (Hname : path_name feat_path = (prefix ++ "_" ++ rest)%string)
        (Hsome : prefix <> EmptyString)
        (Htoken : forall c, In c (list_ascii_of_string prefix) -> c <> "_"%char) :
  exists file,
    write_pcloud pcloud_ feat_path = inr file /\
    filepath file = ["data"; "pcloud"; prefix ++ "_pcloud_points.parq"]%string /\
    file_columns file =
      ["curv_id"; "is_corner"; "x_orig"; "y_orig"; "z_orig"; "x"; "y"; "z"; "is_edge"]%string /\
    (forall c, In c ["x"; "y"; "z"; "is_edge"; "is_corner"]%string -> In c (file_columns file)) /\
    file_rows file = map out_cells pcloud_ /\
    Forall (fun cells => length cells = length (file_columns file)) (file_rows file) /\
    (forall curv pcloud idxs,
        transfer_labels curv pcloud = inr pcloud_ ->
        mapM (fun row => _transfer_gt_labels row pcloud) (drop_duplicates curv) = inr idxs ->
        NoDup idxs ->
        length (file_rows file) = length pcloud).
Proof.
  unfold write_pcloud.
  rewrite (@_format_pcloud_filename_token feat_path prefix rest Hname Hsome Htoken).
  cbn [bind].
  eexists. split; [reflexivity |]. cbn [filepath file_columns file_rows].
  split; [reflexivity |]. split; [reflexivity |].
  split; [intros c Hc; simpl in Hc; vm_compute; intuition |].
  split; [reflexivity |].
  split; [apply Forall_map, Forall_forall; intros r _; reflexivity |].
  intros curv pcloud idxs Hrun Hidxs Hnd.
  rewrite length_map, <- (length_map out_point).
  rewrite (transfer_labels_without_collision _ _ Hidxs Hnd Hrun). reflexivity.
Qed.

End WrittenFile.

(** ** The scenarios of the specification, run on the model *)

(** A boundary point at the origin and points at distances 5, 1 and 3: the
    point at distance 1 is selected. *)
Example nearest_of_513 : _transfer_gt_labels origin_point cloud_513 = inr 1.
Proof. reflexivity. Qed.

(** Equal distances: the first of the nearest points is selected. *)
Example nearest_tie_first :
  _transfer_gt_labels origin_point
    [sample_point 2 0 0; sample_point 0 1 0; sample_point 1 0 0; sample_point 0 0 1] = inr 1.
Proof. reflexivity. Qed.

(** One curve through the vertices 2, 5, 2 of a six-vertex mesh. *)
Example extract_252 : mark_edges_and_corners mesh6 feat_252 = inr curv_252.
Proof. reflexivity. Qed.

(** End to end: point 3 is an edge and a corner, point 7 an edge only, the
    eight others neither. *)
Example transfer_252 :
  transfer_labels curv_252 cloud10 = inr labelled10 /\
  map (fun r => (Out.is_edge r, Out.is_corner r)) labelled10 =
  [ (false, false); (false, false); (false, false); (true, true); (false, false);
    (false, false); (false, false); (true, false); (false, false); (false, false) ].
Proof. split; reflexivity. Qed.

(** C1: two boundary points of distinct vertices whose nearest sampled point
    is the same one.  The cloud has two points and the returned frame three
    rows: the shared point appears once per boundary point, with different
    labels. *)
Theorem C1_shared_nearest_point_adds_rows :
  exists out,
    transfer_labels curv_two cloud_pair = inr out /\
    length cloud_pair = 2 /\
    length out = 3 /\
    map (fun r => (out_point r, Out.is_edge r, Out.is_corner r)) out =
    [ (sample_point 0 0 0, true, true);
      (sample_point 0 0 0, true, false);
      (sample_point 100 0 0, false, false) ].
Proof. eexists. repeat split. Qed.

(** C8 as claimed fails: the file written for the six-vertex scenario has a
    [curv_id] column (and the three [_orig] columns), so its columns are not
    exactly [x, y, z, is_edge, is_corner]. *)
Lemma C8_columns_counterexample :
  exists file,
    write_pcloud labelled10 feat_path_sample = inr file /\
    In "curv_id"%string (file_columns file) /\
    ~ In "curv_id"%string ["x"; "y"; "z"; "is_edge"; "is_corner"]%string /\
    file_columns file <> ["x"; "y"; "z"; "is_edge"; "is_corner"]%string.
Proof.
  eexists. split; [reflexivity |]. split; [left; reflexivity |].
  split; [| discriminate].
  intros Hin. repeat (destruct Hin as [Hc | Hin]; [discriminate Hc |]). exact Hin.
Qed.


(** ** Instances *)

Lemma Z_leb_total (a b : Z) : (a <=? b)%Z = true \/ (b <=? a)%Z = true.
Proof. rewrite !Z.leb_le. lia. Qed.

Lemma Z_leb_trans (a b c : Z) :
  (a <=? b)%Z = true -> (b <=? c)%Z = true -> (a <=? c)%Z = true.
Proof. rewrite !Z.leb_le. lia. Qed.

Lemma C2_witness :
  transfer_labels curv_252 cloud10 = inr labelled10 /\
  exists groups : list (list (Out.row Z)),
    labelled10 = concat groups /\
    length groups = length cloud10 /\
    forall j p, nth_error cloud10 j = Some p ->
      exists g,
        nth_error groups j = Some g /\ g <> [] /\
        (forall r, In r g -> out_point r = p) /\
        (forall r, In r g ->
           (Out.is_edge r = true <->
            exists b, In b (drop_duplicates curv_252) /\ _transfer_gt_labels b cloud10 = inr j)) /\
        ((forall b, In b (drop_duplicates curv_252) -> _transfer_gt_labels b cloud10 <> inr j) ->
         exists r, g = [r] /\ Out.is_edge r = false /\ Out.is_corner r = false) /\
        (forall b, In b (drop_duplicates curv_252) -> _transfer_gt_labels b cloud10 = inr j ->
           (forall b', In b' (drop_duplicates curv_252) ->
                       _transfer_gt_labels b' cloud10 = inr j -> b' = b) ->
           exists r, g = [r] /\ Out.is_edge r = true /\ Out.is_corner r = Curv.is_corner b).
Proof.
  split; [reflexivity |].
  apply (@C2_labels_follow_nearest_neighbours Z Scalar_Z curv_252 cloud10 labelled10).
  reflexivity.
Defined.


Lemma C4_witness :
  mark_edges_and_corners mesh6 feat_252 = inr curv_252 /\
  map (@Curv.idx Z) curv_252 = concat (map vert_indices (curves feat_252)) /\
  (forall r, In r curv_252 ->
             (Curv.is_corner r = true <->
              1 < count_occ Z.eq_dec (concat (map vert_indices (curves feat_252))) (Curv.idx r))) /\
  (forall i, 1 < count_occ Z.eq_dec (concat (map vert_indices (curves feat_252))) i ->
             (exists r, In r (drop_duplicates curv_252) /\ Curv.idx r = i) /\
             (forall r, In r (drop_duplicates curv_252) -> Curv.idx r = i ->
                        Curv.is_corner r = true)).
Proof.
  split; [reflexivity |].
  apply (@C4_corner_iff_repeated_and_kept_by_dedup Z mesh6 feat_252 curv_252).
  reflexivity.
Defined.

Lemma C5_witness :
  transfer_labels curv_252 cloud10 = inr labelled10 /\
  Forall (fun r => Out.is_corner r = true -> Out.is_edge r = true) labelled10.
Proof.
  split; [reflexivity |].
  apply (@C5_corner_implies_edge Z Scalar_Z curv_252 cloud10 labelled10).
  reflexivity.
Defined.

Lemma C6_witness :
  1 <= length cloud10 /\
  exists out,
    transfer_labels [] cloud10 = inr out /\
    length out = length cloud10 /\
    map out_point out = cloud10 /\
    Forall (fun r => Out.is_edge r = false /\ Out.is_corner r = false) out.
Proof.
  split; [simpl; lia |].
  apply (@C6_empty_boundary_all_false Z Scalar_Z cloud10).
  simpl; lia.
Defined.

Lemma C7_witness :
  1 <= length curv_252 /\
  transfer_labels curv_252 [] = inl ValueError /\
  (forall (orig_points : list (@vertex Z)) (feat : Feat) (feat_path : list string),
      mark_edges_and_corners orig_points feat = inr curv_252 ->
      generate_one_pcloud orig_points [] feat feat_path = inl ValueError).
Proof.
  split; [simpl; lia |].
  apply (@C7_empty_cloud_raises Z Scalar_Z curv_252).
  simpl; lia.
Defined.

Lemma C8_witness :
  path_name feat_path_sample
  = ("00000002" ++ "_" ++ "1ffb81a71e5b402e966b9341_features_001.yml")%string /\
  exists file,
    write_pcloud labelled10 feat_path_sample = inr file /\
    filepath file = ["data"; "pcloud"; "00000002" ++ "_pcloud_points.parq"]%string /\
    file_columns file =
      ["curv_id"; "is_corner"; "x_orig"; "y_orig"; "z_orig"; "x"; "y"; "z"; "is_edge"]%string /\
    (forall c, In c ["x"; "y"; "z"; "is_edge"; "is_corner"]%string -> In c (file_columns file)) /\
    file_rows file = map out_cells labelled10 /\
    Forall (fun cells => length cells = length (file_columns file)) (file_rows file) /\
    (forall curv pcloud idxs,
        transfer_labels curv pcloud = inr labelled10 ->
        mapM (fun row => _transfer_gt_labels row pcloud) (drop_duplicates curv) = inr idxs ->
        NoDup idxs ->
        length (file_rows file) = length pcloud).
Proof.
  split; [reflexivity |].
  apply (@C8_written_file_columns_and_name Z Scalar_Z labelled10 feat_path_sample
           "00000002" "1ffb81a71e5b402e966b9341_features_001.yml").
  - reflexivity.
  - discriminate.
  - intros c Hin. simpl in Hin.
    repeat (destruct Hin as [<- | Hin]; [discriminate |]). destruct Hin.
Defined.


(** * Further properties of the code *)

(** ** Feature Extractor: rows, coordinates, failures *)

Lemma getitem_inr_iff (A : Type) (a : list A) (i : Z) (v : A) :
  getitem a i = inr v <->
  (- Z.of_nat (length a) <= i < Z.of_nat (length a))%Z /\
  nth_error a (Z.to_nat (vertex_position (length a) i)) = Some v.
Proof.
  unfold getitem, vertex_position.
  destruct (Z.ltb_spec i 0) as [Hneg | Hpos].
  - destruct (Z.leb_spec 0 (i + Z.of_nat (length a))) as [H0 | H0];
      destruct (Z.ltb_spec (i + Z.of_nat (length a)) (Z.of_nat (length a))) as [H1 | H1];
      cbn [andb]; try (split; [discriminate | intros [Hr _]; lia]).
    destruct (nth_error a _) as [w |] eqn:E.
    + unfold ret. split; [intros Heq; split; [lia | congruence] | intros [_ Heq]; congruence].
    + split; [discriminate | intros [_ Heq]; discriminate].
  - destruct (Z.leb_spec 0 i) as [H0 | H0]; [| lia].
    destruct (Z.ltb_spec i (Z.of_nat (length a))) as [H1 | H1];
      cbn [andb]; try (split; [discriminate | intros [Hr _]; lia]).
    destruct (nth_error a _) as [w |] eqn:E.
    + unfold ret. split; [intros Heq; split; [lia | congruence] | intros [_ Heq]; congruence].
    + split; [discriminate | intros [_ Heq]; discriminate].
Qed.

Lemma getitem_in_range (A : Type) (a : list A) (i : Z) :
  (- Z.of_nat (length a) <= i < Z.of_nat (length a))%Z -> exists v, getitem a i = inr v.
Proof.
  intros Hr.
  destruct (nth_error a (Z.to_nat (vertex_position (length a) i))) as [v |] eqn:E.
  - exists v. apply getitem_inr_iff. auto.
  - exfalso. apply nth_error_None in E. unfold vertex_position in E.
    destruct (Z.ltb_spec i 0); lia.
Qed.

Lemma getitem_outside (A : Type) (a : list A) (i : Z) :
  ~ (- Z.of_nat (length a) <= i < Z.of_nat (length a))%Z -> getitem a i = inl IndexError.
Proof.
  intros Hout. destruct (getitem a i) as [e | v] eqn:E.
  - rewrite (getitem_raises_only _ _ E). reflexivity.
  - apply getitem_inr_iff in E. destruct E as [Hr _]. contradiction.
Qed.

Lemma mapM_Forall2 (A B : Type) (f : A -> result B) (l : list A) (ys : list B) :
  mapM f l = inr ys <-> Forall2 (fun a y => f a = inr y) l ys.
Proof.
  revert ys. induction l as [| a l IH]; intros ys.
  - split.
    + intros Hm. injection Hm as <-. constructor.
    + intros HF. inversion HF. reflexivity.
  - split.
    + intros Hm. apply mapM_inr_inv in Hm. destruct Hm as (b & bs & Ha & Hl & ->).
      constructor; [exact Ha | apply IH; exact Hl].
    + intros HF. inversion HF as [| a' y l' ys' Ha Hl]; subst.
      apply mapM_cons_inr; [exact Ha | apply IH; exact Hl].
Qed.

Section ExtractorRows.
Context {R : Type}.

(** The three column-wise maps of [_merge_coords] amount to one pass that
    reads the vertex of each row once. *)
Lemma _merge_coords_one_pass (orig_points : list (@vertex R)) (edge : list Corner.row) :
  _merge_coords edge orig_points =
  mapM (fun r => p <- getitem orig_points (Corner.idx r) ;;
                 ret {| Curv.curv_id := Corner.curv_id r;
                        Curv.idx := Corner.idx r;
                        Curv.is_corner := Corner.is_corner r;
                        Curv.x := fst (fst p); Curv.y := snd (fst p); Curv.z := snd p |})
       edge.
Proof.
  induction edge as [| r edge IH]; [reflexivity |].
  unfold _merge_coords in *. cbn [map mapM].
  destruct (getitem orig_points (Corner.idx r)) as [e | p]; [reflexivity |].
  cbn [bind ret]. rewrite <- IH.
  destruct (mapM (fun i => p0 <- getitem orig_points i ;; ret (fst (fst p0)))
                 (map Corner.idx edge)) as [e | xs]; [reflexivity |].
  cbn [bind ret].
  destruct (mapM (fun i => p0 <- getitem orig_points i ;; ret (snd (fst p0)))
                 (map Corner.idx edge)) as [e | ys]; [reflexivity |].
  cbn [bind ret].
  destruct (mapM (fun i => p0 <- getitem orig_points i ;; ret (snd p0))
                 (map Corner.idx edge)) as [e | zs]; reflexivity.
Qed.

End ExtractorRows.

Lemma Forall2_In_r (A B : Type) (P : A -> B -> Prop) (l : list A) (l' : list B) (y : B) :
  Forall2 P l l' -> In y l' -> exists x, In x l /\ P x y.
Proof.
  induction 1 as [| a b l l' Hab HF IH]; intros Hin; [destruct Hin |].
  destruct Hin as [<- | Hin].
  - exists a. split; [left; reflexivity | exact Hab].
  - destruct (IH Hin) as (x & Hx & Hp). exists x. split; [right; exact Hx | exact Hp].
Qed.

Lemma Forall2_map_eq (A B C : Type) (f : A -> C) (g : B -> C) (l : list A) (l' : list B) :
  Forall2 (fun a b => f a = g b) l l' -> map f l = map g l'.
Proof. induction 1; simpl; congruence. Qed.

Lemma in_combine_seq (A : Type) (l : list A) (a : A) :
  In a l -> exists j, In (j, a) (combine (seq 0 (length l)) l).
Proof.
  intros Hin. apply In_nth_error in Hin. destruct Hin as (j & Hj).
  exists (0 + j). apply nth_error_In with j. apply nth_error_combine_seq. exact Hj.
Qed.

Lemma cast_labelled (cid : nat) (l : list Z) (res : list (nat * Z)) :
  mapM cast_entry (map (fun v => (cid, Some v)) l) = inr res ->
  res = map (pair cid) l /\ Forall (fun i => fits_int64 i = true) l.
Proof.
  revert res. induction l as [| a l IHl]; intros res Hm.
  - injection Hm as <-. split; [reflexivity | constructor].
  - cbn [map] in Hm. apply mapM_inr_inv in Hm.
    destruct Hm as (b & bs & Ha & Hl & ->).
    apply cast_entry_inr in Ha. destruct Ha as [-> Hfit].
    destruct (IHl _ Hl) as [-> Hfits].
    split; [reflexivity | constructor; assumption].
Qed.

(** A successful cast after [explode] returns the flattened references; no
    curve was empty and every index fits int64. *)
Lemma astype_int_explode_exact_from (s : list (list Z)) (n : nat) (res : list (nat * Z)) :
  astype_int
    (concat
       (map (fun '(cid, vs) =>
               match vs with
               | [] => [(cid, None)]
               | _ => map (fun v => (cid, Some v)) vs
               end)
            (combine (seq n (length s)) s))) = inr res ->
  res = concat (map (fun cv => map (pair (fst cv)) (snd cv)) (combine (seq n (length s)) s)) /\
  Forall (fun vs => vs <> []) s /\
  Forall (fun i => fits_int64 i = true) (concat s).
Proof.
  unfold astype_int. revert n res. induction s as [| vs s IH]; intros n res Hm.
  - injection Hm as <-. split; [reflexivity |]. split; constructor.
  - cbn [length seq combine map concat] in Hm.
    apply mapM_app_inv in Hm. destruct Hm as (r1 & r2 & H1 & H2 & ->).
    destruct (IH (S n) _ H2) as (-> & Hne & Hfits).
    destruct vs as [| v vs]; [discriminate |].
    apply cast_labelled in H1. destruct H1 as [-> Hfit].
    split; [reflexivity |].
    split; [constructor; [discriminate | exact Hne] |].
    cbn [concat]. apply Forall_app. split; assumption.
Qed.

Lemma astype_int_explode_exact (s : list (list Z)) (res : list (nat * Z)) :
  astype_int (explode s) = inr res ->
  res = flat_occurrences s /\ Forall (fun vs => vs <> []) s.
Proof.
  intros Hres. apply astype_int_explode_exact_from in Hres.
  destruct Hres as (Hr & Hne & _). split; assumption.
Qed.

Lemma astype_int_explode_fits (s : list (list Z)) (res : list (nat * Z)) :
  astype_int (explode s) = inr res -> Forall (fun i => fits_int64 i = true) (concat s).
Proof.
  intros Hres. apply astype_int_explode_exact_from in Hres. apply Hres.
Qed.

(** The entries that [explode] produces. *)
Lemma explode_entries (s : list (list Z)) (a : nat * option Z) :
  In a (explode s) ->
  (snd a = None /\ In [] s) \/ (exists w, snd a = Some w /\ In w (concat s)).
Proof.
  unfold explode. intros Hin. apply in_concat in Hin. destruct Hin as (g & Hg & Hin).
  apply in_map_iff in Hg. destruct Hg as ([c vs] & <- & Hc).
  apply in_combine_r in Hc. destruct vs as [| v0 vs].
  - destruct Hin as [<- | []]. left. auto.
  - apply in_map_iff in Hin. destruct Hin as (w & <- & Hw).
    right. exists w. split; [reflexivity |]. apply in_concat. exists (v0 :: vs). auto.
Qed.

Lemma explode_hole (s : list (list Z)) :
  In [] s -> exists j, In (j, None) (explode s).
Proof.
  intros Hin. destruct (in_combine_seq _ _ Hin) as (j & Hj). exists j.
  unfold explode. apply in_concat. exists [(j, None)]. split; [| left; reflexivity].
  apply in_map_iff. exists (j, []). split; [reflexivity | exact Hj].
Qed.

Lemma explode_index (s : list (list Z)) (w : Z) :
  In w (concat s) -> exists j, In (j, Some w) (explode s).
Proof.
  intros Hin. apply in_concat in Hin. destruct Hin as (vs & Hvs & Hw).
  destruct (in_combine_seq _ _ Hvs) as (j & Hj). exists j.
  unfold explode. apply in_concat. exists (map (fun v => (j, Some v)) vs).
  split; [| apply (in_map (fun v => (j, Some v))); exact Hw].
  apply in_map_iff. exists (j, vs).
  split; [destruct vs; [destruct Hw | reflexivity] | exact Hj].
Qed.

(** A failing row makes the row-wise map fail with [e] when [e] is the only
    exception that the rows of this list can raise. *)
Lemma mapM_raises_in (A B : Type) (f : A -> result B) (e : exn) (l : list A) (a : A) :
  (forall a' e', In a' l -> f a' = inl e' -> e' = e) ->
  In a l -> f a = inl e -> mapM f l = inl e.
Proof.
  induction l as [| a0 l IH]; intros Honly Hin Ha; [destruct Hin |].
  simpl. destruct (f a0) as [e0 | b0] eqn:E0; simpl.
  - rewrite (Honly a0 e0 (or_introl eq_refl) E0). reflexivity.
  - destruct Hin as [-> | Hin]; [congruence |].
    rewrite IH; [reflexivity | | exact Hin | exact Ha].
    intros a' e' Ha'. apply Honly. right. exact Ha'.
Qed.

Lemma mapM_inl_inv (A B : Type) (f : A -> result B) (e : exn) (l : list A) :
  mapM f l = inl e -> exists a, In a l /\ f a = inl e.
Proof.
  induction l as [| a0 l IH]; [discriminate |].
  simpl. destruct (f a0) as [e0 | b0] eqn:E0; simpl.
  - intros Heq. injection Heq as <-. exists a0. auto.
  - destruct (mapM f l) as [e1 | bs]; simpl; [| discriminate].
    intros Heq. injection Heq as <-.
    destruct (IH eq_refl) as (a & Ha & Hf). exists a. auto.
Qed.

Lemma astype_int_raises (s : list (nat * option Z)) (e : exn) :
  astype_int s = inl e -> e = ValueError \/ e = OverflowError.
Proof.
  intros Hfail. apply mapM_inl_inv in Hfail. destruct Hfail as ([cid v] & _ & Hf).
  unfold cast_entry in Hf. cbn [fst snd] in Hf.
  destruct v as [i |]; [destruct (fits_int64 i); [discriminate |] |];
    unfold raise in Hf; injection Hf as <-; auto.
Qed.

(** An empty curve among indices that all fit int64: ValueError. *)
Lemma astype_int_explode_hole (s : list (list Z)) :
  In [] s -> Forall (fun i => fits_int64 i = true) (concat s) ->
  astype_int (explode s) = inl ValueError.
Proof.
  intros Hin Hfits. destruct (explode_hole _ Hin) as (j & Hj).
  unfold astype_int. apply mapM_raises_in with (j, None); [| exact Hj | reflexivity].
  intros [cid v] e Ha Hf. apply explode_entries in Ha. cbn [snd] in Ha.
  unfold cast_entry in Hf. cbn [fst snd] in Hf.
  destruct Ha as [[-> _] | (w & -> & Hw)].
  - unfold raise in Hf. congruence.
  - rewrite Forall_forall in Hfits. rewrite (Hfits w Hw) in Hf. discriminate.
Qed.

(** An index outside int64 among curves that all list a vertex:
    OverflowError. *)
Lemma astype_int_explode_overflow (s : list (list Z)) (w : Z) :
  Forall (fun vs => vs <> []) s -> In w (concat s) -> fits_int64 w = false ->
  astype_int (explode s) = inl OverflowError.
Proof.
  intros Hne Hw Hbig. destruct (explode_index _ _ Hw) as (j & Hj).
  unfold astype_int. apply mapM_raises_in with (j, Some w); [| exact Hj |].
  - intros [cid v] e Ha Hf. apply explode_entries in Ha. cbn [snd] in Ha.
    unfold cast_entry in Hf. cbn [fst snd] in Hf.
    destruct Ha as [[-> Hhole] | (w' & -> & _)].
    + rewrite Forall_forall in Hne. exfalso. exact (Hne [] Hhole eq_refl).
    + destruct (fits_int64 w'); [discriminate |]. unfold raise in Hf. congruence.
  - unfold cast_entry. cbn [fst snd]. rewrite Hbig. reflexivity.
Qed.

Lemma _mark_corner_keys (edge : list Edge.row) :
  map (fun r => (Corner.curv_id r, Corner.idx r)) (_mark_corner edge) =
  map (fun r => (Edge.curv_id r, Edge.idx r)) edge.
Proof. unfold _mark_corner. rewrite map_map. reflexivity. Qed.

Lemma to_edge_frame_keys (s : list (nat * Z)) :
  map (fun r => (Edge.curv_id r, Edge.idx r)) (to_edge_frame s) = s.
Proof.
  unfold to_edge_frame. rewrite map_map. rewrite <- (map_id s) at 2.
  apply map_ext. intros [c i]. reflexivity.
Qed.

Section ExtractorExtras.
Context {R : Type}.

(** A successful run, step by step. *)
Lemma mark_edges_and_corners_steps (orig_points : list (@vertex R)) (feat : Feat)
      (curv : list (Curv.row R)) :
  mark_edges_and_corners orig_points feat = inr curv ->
  curves feat <> [] /\
  Forall (fun c => vert_indices c <> []) (curves feat) /\
  Forall2 (fun r c =>
             Curv.curv_id c = Corner.curv_id r /\ Curv.idx c = Corner.idx r /\
             Curv.is_corner c = Corner.is_corner r /\
             getitem orig_points (Corner.idx r) = inr (Curv.x c, Curv.y c, Curv.z c))
          (_mark_corner (to_edge_frame (flat_occurrences (map vert_indices (curves feat)))))
          curv.
Proof.
  unfold mark_edges_and_corners. destruct (curves feat) as [| c cs] eqn:Ec; [discriminate |].
  intros Hrun. apply bind_inr_inv in Hrun. destruct Hrun as (res & Hres & Hm).
  apply astype_int_explode_exact in Hres. destruct Hres as [-> Hne].
  split; [discriminate |].
  split; [exact (proj1 (@Forall_map _ _ vert_indices (fun vs => vs <> []) (c :: cs)) Hne) |].
  rewrite _merge_coords_one_pass in Hm. apply mapM_Forall2 in Hm.
  revert Hm. apply Forall2_impl. intros r c0 Hrc.
  apply bind_inr_inv in Hrc. destruct Hrc as ([[px py] pz] & Hp & Hc).
  unfold ret in Hc. injection Hc as <-. cbn. auto.
Qed.

(** X1: a successful extraction returns one row per reference of a vertex by
    a curve, in the order of the feature file: curve after curve, each row
    labelled with the position of its curve. *)
Theorem X1_extractor_rows_follow_references
        (orig_points : list (@vertex R)) (feat : Feat) (curv : list (Curv.row R))
        (Hrun : mark_edges_and_corners orig_points feat = inr curv) :
  map (fun c => (Curv.curv_id c, Curv.idx c)) curv
  = flat_occurrences (map vert_indices (curves feat)) /\
  length curv = length (concat (map vert_indices (curves feat))).
Proof.
  destruct (mark_edges_and_corners_steps _ _ Hrun) as (_ & _ & HF).
  assert (Hkeys : map (fun c => (Curv.curv_id c, Curv.idx c)) curv
                  = flat_occurrences (map vert_indices (curves feat))).
  { rewrite <- (to_edge_frame_keys (flat_occurrences _)), <- _mark_corner_keys.
    symmetry. apply Forall2_map_eq. revert HF. apply Forall2_impl.
    intros r c (H1 & H2 & _). congruence. }
  split; [exact Hkeys |].
  destruct (mark_edges_and_corners_inv _ _ Hrun) as [Hidx _].
  rewrite <- Hidx, length_map. reflexivity.
Qed.

(** X2: every row of a successful extraction carries the coordinates of the
    mesh vertex that its index designates, where an index [i] in [-n, 0)
    designates the vertex [n + i] (the array is read from its end) and no
    other index is accepted. *)
Theorem X2_extractor_coordinates_from_mesh
        (orig_points : list (@vertex R)) (feat : Feat) (curv : list (Curv.row R))
        (Hrun : mark_edges_and_corners orig_points feat = inr curv) :
  forall c, In c curv ->
    (- Z.of_nat (length orig_points) <= Curv.idx c < Z.of_nat (length orig_points))%Z /\
    nth_error orig_points (Z.to_nat (vertex_position (length orig_points) (Curv.idx c)))
    = Some (Curv.x c, Curv.y c, Curv.z c).
Proof.
  destruct (mark_edges_and_corners_steps _ _ Hrun) as (_ & _ & HF).
  intros c Hc. destruct (Forall2_In_r _ HF Hc) as (r & _ & _ & Hidx & _ & Hget).
  rewrite Hidx. apply getitem_inr_iff. exact Hget.
Qed.

(** X6: in the output of the extractor, rows of the same vertex carry the
    same [is_corner] flag, so that the flag of a vertex does not depend on
    which of its rows a deduplication keeps. *)
Theorem X6_corner_flag_is_per_vertex
        (orig_points : list (@vertex R)) (feat : Feat) (curv : list (Curv.row R))
        (Hrun : mark_edges_and_corners orig_points feat = inr curv) :
  forall c1 c2, In c1 curv -> In c2 curv -> Curv.idx c1 = Curv.idx c2 ->
                Curv.is_corner c1 = Curv.is_corner c2.
Proof.
  destruct (mark_edges_and_corners_inv _ _ Hrun) as [_ Hflag].
  intros c1 c2 H1 H2 Heq. rewrite (Hflag c1 H1), (Hflag c2 H2), Heq. reflexivity.
Qed.

End ExtractorExtras.

Section ExtractorOutcome.
Context {R : Type}.

Lemma _merge_coords_outside (edge : list Corner.row) (orig_points : list (@vertex R)) (i : Z) :
  In i (map Corner.idx edge) ->
  ~ (- Z.of_nat (length orig_points) <= i < Z.of_nat (length orig_points))%Z ->
  _merge_coords edge orig_points = inl IndexError.
Proof.
  intros Hin Hout. unfold _merge_coords.
  rewrite (@mapM_raises _ _ _ IndexError _ i); [reflexivity | | exact Hin |].
  - intros a e. destruct (getitem orig_points a) eqn:E; [| discriminate].
    intros Heq. injection Heq as <-. apply (getitem_raises_only _ _ E).
  - rewrite (@getitem_outside _ orig_points i Hout). reflexivity.
Qed.

Lemma extractor_no_curve (orig_points : list (@vertex R)) (feat : Feat) :
  curves feat = [] -> mark_edges_and_corners orig_points feat = inl AttributeError.
Proof. unfold mark_edges_and_corners. intros ->. reflexivity. Qed.

Lemma extractor_empty_curve (orig_points : list (@vertex R)) (feat : Feat) :
  Exists (fun c => vert_indices c = []) (curves feat) ->
  Forall (fun i => fits_int64 i = true) (concat (map vert_indices (curves feat))) ->
  mark_edges_and_corners orig_points feat = inl ValueError.
Proof.
  intros Hex Hfits. apply Exists_exists in Hex. destruct Hex as (c & Hc & Hempty).
  unfold mark_edges_and_corners. destruct (curves feat) as [| c0 cs]; [destruct Hc |].
  rewrite astype_int_explode_hole; [reflexivity | | exact Hfits].
  rewrite <- Hempty. apply in_map. exact Hc.
Qed.

Lemma extractor_overflow (orig_points : list (@vertex R)) (feat : Feat) :
  Forall (fun c => vert_indices c <> []) (curves feat) ->
  Exists (fun i => fits_int64 i = false) (concat (map vert_indices (curves feat))) ->
  mark_edges_and_corners orig_points feat = inl OverflowError.
Proof.
  intros Hne Hex. apply Exists_exists in Hex. destruct Hex as (w & Hw & Hbig).
  unfold mark_edges_and_corners. destruct (curves feat) as [| c0 cs]; [destruct Hw |].
  rewrite (@astype_int_explode_overflow _ w); [reflexivity | | exact Hw | exact Hbig].
  apply Forall_map. exact Hne.
Qed.

(** When the cast cannot go through, it is the cast that fails. *)
Lemma extractor_cast_fails (orig_points : list (@vertex R)) (feat : Feat) :
  curves feat <> [] ->
  Exists (fun c => vert_indices c = []) (curves feat) \/
  Exists (fun i => fits_int64 i = false) (concat (map vert_indices (curves feat))) ->
  mark_edges_and_corners orig_points feat = inl ValueError \/
  mark_edges_and_corners orig_points feat = inl OverflowError.
Proof.
  intros Hcurves Hbad. unfold mark_edges_and_corners.
  destruct (curves feat) as [| c cs] eqn:Ec; [congruence |].
  destruct (astype_int (explode (map vert_indices (c :: cs)))) as [e | res] eqn:Ea.
  - destruct (astype_int_raises _ Ea) as [-> | ->]; [left | right]; reflexivity.
  - exfalso. pose proof (astype_int_explode_fits _ Ea) as Hfits.
    apply astype_int_explode_exact in Ea. destruct Ea as [_ Hne].
    destruct Hbad as [Hex | Hex]; apply Exists_exists in Hex.
    + destruct Hex as (c0 & Hc0 & Hempty). rewrite Forall_forall in Hne.
      apply (Hne (vert_indices c0)); [apply in_map; exact Hc0 | exact Hempty].
    + destruct Hex as (w & Hw & Hbig). rewrite Forall_forall in Hfits.
      rewrite (Hfits w Hw) in Hbig. discriminate.
Qed.

Lemma extractor_index_outside (orig_points : list (@vertex R)) (feat : Feat) :
  Forall (fun c => vert_indices c <> []) (curves feat) ->
  Forall (fun i => fits_int64 i = true) (concat (map vert_indices (curves feat))) ->
  Exists (fun i => ~ (- Z.of_nat (length orig_points) <= i < Z.of_nat (length orig_points))%Z)
         (concat (map vert_indices (curves feat))) ->
  mark_edges_and_corners orig_points feat = inl IndexError.
Proof.
  intros Hne Hfits Hex. apply Exists_exists in Hex. destruct Hex as (i & Hin & Hout).
  unfold mark_edges_and_corners.
  destruct (curves feat) as [| c cs] eqn:Ec; [destruct Hin |].
  destruct (@astype_int_explode_total (map vert_indices (c :: cs))) as (res & Hres).
  { apply Forall_map. exact Hne. }
  { exact Hfits. }
  rewrite Hres. cbn [bind].
  apply _merge_coords_outside with i; [| exact Hout].
  rewrite _mark_corner_idx, to_edge_frame_idx, (astype_int_explode _ Hres). exact Hin.
Qed.

Lemma extractor_well_formed (orig_points : list (@vertex R)) (feat : Feat) :
  curves feat <> [] ->
  Forall (fun c => vert_indices c <> []) (curves feat) ->
  Forall (fun i => fits_int64 i = true) (concat (map vert_indices (curves feat))) ->
  Forall (fun i => (- Z.of_nat (length orig_points) <= i < Z.of_nat (length orig_points))%Z)
         (concat (map vert_indices (curves feat))) ->
  exists curv, mark_edges_and_corners orig_points feat = inr curv.
Proof.
  intros Hcurves Hne Hfits Hrange. unfold mark_edges_and_corners.
  destruct (curves feat) as [| c cs] eqn:Ec; [congruence |].
  destruct (@astype_int_explode_total (map vert_indices (c :: cs))) as (res & Hres).
  { apply Forall_map. exact Hne. }
  { exact Hfits. }
  rewrite Hres. cbn [bind]. rewrite _merge_coords_one_pass.
  apply mapM_total. intros r Hr.
  destruct (@getitem_in_range _ orig_points (Corner.idx r)) as (p & Hp).
  - rewrite Forall_forall in Hrange. apply Hrange.
    rewrite <- (astype_int_explode _ Hres), <- to_edge_frame_idx, <- _mark_corner_idx.
    apply in_map. exact Hr.
  - rewrite Hp. eexists. reflexivity.
Qed.

(** The outcomes of the extractor, in the order in which the code meets
    them: no curve, a cast that cannot go through, an index outside the mesh,
    a frame. *)
Lemma extractor_outcome (orig_points : list (@vertex R)) (feat : Feat) :
  (curves feat = [] /\ mark_edges_and_corners orig_points feat = inl AttributeError) \/
  (curves feat <> [] /\
   (Exists (fun c => vert_indices c = []) (curves feat) \/
    Exists (fun i => fits_int64 i = false) (concat (map vert_indices (curves feat)))) /\
   (mark_edges_and_corners orig_points feat = inl ValueError \/
    mark_edges_and_corners orig_points feat = inl OverflowError) /\
   (Forall (fun i => fits_int64 i = true) (concat (map vert_indices (curves feat))) ->
    mark_edges_and_corners orig_points feat = inl ValueError) /\
   (Forall (fun c => vert_indices c <> []) (curves feat) ->
    mark_edges_and_corners orig_points feat = inl OverflowError)) \/
  (Forall (fun c => vert_indices c <> []) (curves feat) /\
   Forall (fun i => fits_int64 i = true) (concat (map vert_indices (curves feat))) /\
   Exists (fun i => ~ (- Z.of_nat (length orig_points) <= i < Z.of_nat (length orig_points))%Z)
          (concat (map vert_indices (curves feat))) /\
   mark_edges_and_corners orig_points feat = inl IndexError) \/
  (curves feat <> [] /\
   Forall (fun c => vert_indices c <> []) (curves feat) /\
   Forall (fun i => fits_int64 i = true) (concat (map vert_indices (curves feat))) /\
   Forall (fun i => (- Z.of_nat (length orig_points) <= i < Z.of_nat (length orig_points))%Z)
          (concat (map vert_indices (curves feat))) /\
   exists curv, mark_edges_and_corners orig_points feat = inr curv).
Proof.
  destruct (list_eq_dec (fun c1 c2 : Curve => ltac:(decide equality; apply (list_eq_dec Z.eq_dec)))
                        (curves feat) []) as [Hnil | Hcurves].
  { left. split; [exact Hnil | apply extractor_no_curve; exact Hnil]. }
  right.
  destruct (Exists_dec (fun c => vert_indices c = []) (curves feat)) as [Hex | Hnex].
  { intros c. destruct (vert_indices c); [left; reflexivity | right; discriminate]. }
  { left. split; [exact Hcurves |]. split; [left; exact Hex |].
    split; [apply extractor_cast_fails; auto |].
    split; [intros Hfits; apply extractor_empty_curve; assumption |].
    intros Hne. exfalso. apply Exists_exists in Hex. destruct Hex as (c & Hc & Hempty).
    rewrite Forall_forall in Hne. exact (Hne c Hc Hempty). }
  assert (Hne : Forall (fun c => vert_indices c <> []) (curves feat))
    by (apply Forall_Exists_neg; exact Hnex).
  destruct (Exists_dec (fun i => fits_int64 i = false)
                       (concat (map vert_indices (curves feat)))) as [Hbig | Hnbig].
  { intros i. destruct (fits_int64 i); [right; discriminate | left; reflexivity]. }
  { left. split; [exact Hcurves |]. split; [right; exact Hbig |].
    split; [apply extractor_cast_fails; auto |].
    split; [| intros _; apply extractor_overflow; assumption].
    intros Hfits. exfalso. apply Exists_exists in Hbig. destruct Hbig as (w & Hw & Hb).
    rewrite Forall_forall in Hfits. rewrite (Hfits w Hw) in Hb. discriminate. }
  assert (Hfits : Forall (fun i => fits_int64 i = true)
                         (concat (map vert_indices (curves feat)))).
  { apply Forall_forall. intros i Hi.
    apply Forall_Exists_neg in Hnbig. rewrite Forall_forall in Hnbig. specialize (Hnbig i Hi).
    destruct (fits_int64 i); congruence. }
  right.
  destruct (Exists_dec
              (fun i => ~ (- Z.of_nat (length orig_points) <= i
                           < Z.of_nat (length orig_points))%Z)
              (concat (map vert_indices (curves feat)))) as [Hout | Hin].
  { intros i.
    destruct (Z_le_dec (- Z.of_nat (length orig_points)) i);
      destruct (Z_lt_dec i (Z.of_nat (length orig_points))); [right | left ..]; lia. }
  { left. split; [exact Hne |]. split; [exact Hfits |].
    split; [exact Hout | apply extractor_index_outside; assumption]. }
  right. assert (Hrange : Forall (fun i => (- Z.of_nat (length orig_points) <= i
                                            < Z.of_nat (length orig_points))%Z)
                                 (concat (map vert_indices (curves feat)))).
  { apply Forall_forall. intros i Hi.
    apply Forall_Exists_neg in Hin. rewrite Forall_forall in Hin. specialize (Hin i Hi). lia. }
  split; [exact Hcurves |]. split; [exact Hne |]. split; [exact Hfits |].
  split; [exact Hrange |]. apply extractor_well_formed; assumption.
Qed.

(** X3: the extractor returns a frame exactly when the feature set has at
    least one curve, every curve lists at least one vertex, and every listed
    index lies in [-n, n) for the n vertices of the mesh and fits int64; for a
    mesh of at most 2^63 vertices, which is every mesh an ndarray can hold,
    the last condition follows from the one before. *)
Theorem X3_extractor_succeeds_iff (orig_points : list (@vertex R)) (feat : Feat) :
  ((exists curv, mark_edges_and_corners orig_points feat = inr curv) <->
   curves feat <> [] /\
   Forall (fun c => vert_indices c <> []) (curves feat) /\
   Forall (fun i => (- Z.of_nat (length orig_points) <= i < Z.of_nat (length orig_points))%Z)
          (concat (map vert_indices (curves feat))) /\
   Forall (fun i => fits_int64 i = true) (concat (map vert_indices (curves feat)))) /\
  ((Z.of_nat (length orig_points) <= 2 ^ 63)%Z ->
   ((exists curv, mark_edges_and_corners orig_points feat = inr curv) <->
    curves feat <> [] /\
    Forall (fun c => vert_indices c <> []) (curves feat) /\
    Forall (fun i => (- Z.of_nat (length orig_points) <= i < Z.of_nat (length orig_points))%Z)
           (concat (map vert_indices (curves feat))))).
Proof.
  assert (Hexact :
            (exists curv, mark_edges_and_corners orig_points feat = inr curv) <->
            curves feat <> [] /\
            Forall (fun c => vert_indices c <> []) (curves feat) /\
            Forall (fun i => (- Z.of_nat (length orig_points) <= i
                              < Z.of_nat (length orig_points))%Z)
                   (concat (map vert_indices (curves feat))) /\
            Forall (fun i => fits_int64 i = true) (concat (map vert_indices (curves feat)))).
  { split.
    - intros (curv & Hrun).
      destruct (extractor_outcome orig_points feat)
        as [(_ & He) | [(_ & _ & [He | He] & _) | [(_ & _ & _ & He) | (H1 & H2 & H3 & H4 & _)]]];
        try congruence.
      auto.
    - intros (H1 & H2 & H3 & H4). apply extractor_well_formed; assumption. }
  split; [exact Hexact |].
  intros Hsize. rewrite Hexact. split.
  - intros (H1 & H2 & H3 & _). auto.
  - intros (H1 & H2 & H3). repeat split; try assumption.
    revert H3. apply Forall_impl. intros i Hi.
    unfold fits_int64. apply andb_true_iff. split; [apply Z.leb_le | apply Z.ltb_lt]; lia.
Qed.

(** X4: which exception the extractor raises.  AttributeError exactly when
    the feature set has no curve.  ValueError or OverflowError, from the cast
    of the indices, exactly when there are curves and one of them lists no
    vertex or some index does not fit int64: ValueError when only empty curves
    are at fault, OverflowError when only oversized indices are.  IndexError
    exactly when every curve lists a vertex, every index fits int64 and some
    index lies outside [-n, n). *)
Theorem X4_extractor_failures (orig_points : list (@vertex R)) (feat : Feat) :
  (mark_edges_and_corners orig_points feat = inl AttributeError <-> curves feat = []) /\
  (mark_edges_and_corners orig_points feat = inl ValueError \/
   mark_edges_and_corners orig_points feat = inl OverflowError <->
   curves feat <> [] /\
   (Exists (fun c => vert_indices c = []) (curves feat) \/
    Exists (fun i => fits_int64 i = false) (concat (map vert_indices (curves feat))))) /\
  (Forall (fun i => fits_int64 i = true) (concat (map vert_indices (curves feat))) ->
   (mark_edges_and_corners orig_points feat = inl ValueError <->
    curves feat <> [] /\ Exists (fun c => vert_indices c = []) (curves feat))) /\
  (Forall (fun c => vert_indices c <> []) (curves feat) ->
   (mark_edges_and_corners orig_points feat = inl OverflowError <->
    Exists (fun i => fits_int64 i = false) (concat (map vert_indices (curves feat))))) /\
  (mark_edges_and_corners orig_points feat = inl IndexError <->
   Forall (fun c => vert_indices c <> []) (curves feat) /\
   Forall (fun i => fits_int64 i = true) (concat (map vert_indices (curves feat))) /\
   Exists (fun i => ~ (- Z.of_nat (length orig_points) <= i < Z.of_nat (length orig_points))%Z)
          (concat (map vert_indices (curves feat)))).
Proof.
  assert (Hclash : forall l : list Curve,
             Forall (fun c => vert_indices c <> []) l ->
             Exists (fun c => vert_indices c = []) l -> False).
  { intros l HF HE. apply Exists_exists in HE. destruct HE as (c & Hc & He).
    rewrite Forall_forall in HF. exact (HF c Hc He). }
  assert (Hclash2 : forall l : list Z,
             Forall (fun i => fits_int64 i = true) l ->
             Exists (fun i => fits_int64 i = false) l -> False).
  { intros l HF HE. apply Exists_exists in HE. destruct HE as (i & Hi & He).
    rewrite Forall_forall in HF. rewrite (HF i Hi) in He. discriminate. }
  assert (Hclash3 : forall (P : Z -> Prop) (l : list Z),
             Forall P l -> Exists (fun i => ~ P i) l -> False).
  { intros P l HF HE. apply Exists_exists in HE. destruct HE as (i & Hi & He).
    rewrite Forall_forall in HF. exact (He (HF i Hi)). }
  assert (Hempty : forall (P : Z -> Prop), ~ Exists P []) by (intros P Hx; inversion Hx).
  assert (Hempty' : forall (P : Curve -> Prop), ~ Exists P []) by (intros P Hx; inversion Hx).
  destruct (extractor_outcome orig_points feat)
    as [(Hnil & He)
       | [(Hc & Hbad & Hcast & Hve & Hoe)
         | [(Hne & Hfits & Hout & He) | (Hc & Hne & Hfits & Hin & curv & He)]]].
  - rewrite He, Hnil. cbn [map concat].
    repeat split; intros;
      repeat match goal with
             | Hx : _ /\ _ |- _ => destruct Hx
             | Hx : _ \/ _ |- _ => destruct Hx
             end;
      try congruence;
      try match goal with Hx : Exists _ [] |- _ => inversion Hx end;
      exfalso; eauto.
  - split; [split; [intros He; destruct Hcast; congruence | intros Hn; congruence] |].
    split; [split; [intros _; auto | intros _; exact Hcast] |].
    split; [intros Hfits; rewrite (Hve Hfits); split; [intros _ | reflexivity] |].
    { split; [exact Hc |]. destruct Hbad as [Hx | Hx]; [exact Hx | exfalso; eauto]. }
    split; [intros Hne; rewrite (Hoe Hne); split; [intros _ | reflexivity] |].
    { destruct Hbad as [Hx | Hx]; [exfalso; eauto | exact Hx]. }
    split; [intros He; destruct Hcast; congruence |].
    intros (Hne & Hfits & _). destruct Hbad; exfalso; eauto.
  - rewrite He.
    repeat split; intros;
      repeat match goal with
             | Hx : _ /\ _ |- _ => destruct Hx
             | Hx : _ \/ _ |- _ => destruct Hx
             end;
      try congruence; try assumption;
      try match goal with Hn : curves feat = [] |- _ => rewrite Hn in *; simpl in * end;
      try match goal with Hx : Exists _ [] |- _ => inversion Hx end;
      exfalso; eauto.
  - rewrite He.
    repeat split; intros;
      repeat match goal with
             | Hx : _ /\ _ |- _ => destruct Hx
             | Hx : _ \/ _ |- _ => destruct Hx
             end;
      try congruence; try assumption; exfalso; eauto.
Qed.

End ExtractorOutcome.

(** ** Deduplication: distinct indices, nothing lost, fixed points *)

Section DedupExtras.
Context {R : Type}.

Lemma drop_duplicates_from_length (l : list (Curv.row R)) (seen : list Z) :
  length (drop_duplicates_from seen l) <= length l.
Proof.
  revert seen. induction l as [| a l IH]; intros seen; [simpl; lia |].
  simpl. destruct (existsb _ seen); simpl; [specialize (IH seen) | specialize (IH (Curv.idx a :: seen))]; lia.
Qed.

Lemma drop_duplicates_from_fixed (l : list (Curv.row R)) (seen : list Z) :
  NoDup (map (@Curv.idx R) l) ->
  (forall i, In i (map (@Curv.idx R) l) -> existsb (Z.eqb i) seen = false) ->
  drop_duplicates_from seen l = l.
Proof.
  revert seen. induction l as [| a l IH]; intros seen Hnd Hseen; [reflexivity |].
  simpl in Hnd. apply NoDup_cons_iff in Hnd. destruct Hnd as [Hnotin Hnd].
  simpl. rewrite (Hseen (Curv.idx a)) by (left; reflexivity).
  f_equal. apply IH; [exact Hnd |].
  intros i Hi. simpl. rewrite (Hseen i) by (right; exact Hi).
  destruct (Z.eqb_spec i (Curv.idx a)) as [-> | _]; [contradiction | reflexivity].
Qed.

(** X5: the deduplicated frame has pairwise distinct vertex indices, holds
    exactly the vertex indices of the input, and is never longer than it. *)
Theorem X5_drop_duplicates_distinct_and_complete (curv : list (Curv.row R)) :
  NoDup (map (@Curv.idx R) (drop_duplicates curv)) /\
  (forall i, In i (map (@Curv.idx R) (drop_duplicates curv)) <->
             In i (map (@Curv.idx R) curv)) /\
  length (drop_duplicates curv) <= length curv.
Proof.
  split; [apply drop_duplicates_NoDup |]. split; [| apply drop_duplicates_from_length].
  intros i. split.
  - intros Hin. apply in_map_iff in Hin. destruct Hin as (r & <- & Hr).
    apply in_map. apply drop_duplicates_In. exact Hr.
  - intros Hin. destruct (drop_duplicates_complete _ _ Hin) as (r & Hr & <-).
    apply in_map. exact Hr.
Qed.

(** X7: the deduplication leaves a frame unchanged exactly when its vertex
    indices are pairwise distinct; in particular deduplicating twice is
    deduplicating once. *)
Theorem X7_drop_duplicates_fixed_points (curv : list (Curv.row R)) :
  (drop_duplicates curv = curv <-> NoDup (map (@Curv.idx R) curv)) /\
  drop_duplicates (drop_duplicates curv) = drop_duplicates curv.
Proof.
  assert (Hfix : forall l : list (Curv.row R),
             NoDup (map (@Curv.idx R) l) -> drop_duplicates l = l).
  { intros l Hnd. apply drop_duplicates_from_fixed; [exact Hnd | reflexivity]. }
  split.
  - split; [| apply Hfix]. intros Heq. rewrite <- Heq. apply drop_duplicates_NoDup.
  - apply Hfix. apply drop_duplicates_NoDup.
Qed.

End DedupExtras.

(** ** Nearest neighbour and transfer: when they fail, what they return *)

Section TransferOutcome.
Context {R : Type} `{Scalar R}.

Lemma argmin_from_bound (l : list R) (best k : nat) (bv : R) :
  best < k -> argmin_from best bv k l < k + length l.
Proof.
  revert best k bv. induction l as [| v l IH]; intros best k bv Hlt; [simpl; lia |].
  simpl. destruct (Rleb bv v).
  - specialize (IH best (S k) bv). lia.
  - specialize (IH k (S k) v). lia.
Qed.

Lemma nearest_neighbour_outcome (row : Curv.row R) (pcloud : list (Pcloud.row R)) :
  (forall i, _transfer_gt_labels row pcloud = inr i -> i < length pcloud) /\
  (forall e, _transfer_gt_labels row pcloud = inl e <-> pcloud = [] /\ e = ValueError).
Proof.
  unfold _transfer_gt_labels. destruct pcloud as [| p pcloud].
  - split; [discriminate |]. intros e. simpl. unfold raise.
    split; [intros Heq; split; congruence | intros [_ ->]; reflexivity].
  - split.
    + intros i Heq. cbn [map argmin] in Heq. unfold ret in Heq. injection Heq as <-.
      pose proof (@argmin_from_bound (map (sq_dist row) pcloud) 0 1 (sq_dist row p)) as Hb.
      rewrite length_map in Hb. simpl. lia.
    + intros e. split; [discriminate | intros [Hnil _]; discriminate].
Qed.

(** X8: whatever the order on the scalars, the nearest-neighbour search
    returns a position inside the cloud, and it fails only on an empty cloud,
    with ValueError. *)
Theorem X8_nearest_neighbour_in_range (row : Curv.row R) (pcloud : list (Pcloud.row R)) :
  (forall i, _transfer_gt_labels row pcloud = inr i -> i < length pcloud) /\
  (forall e, _transfer_gt_labels row pcloud = inl e <-> pcloud = [] /\ e = ValueError).
Proof. apply nearest_neighbour_outcome. Qed.

Lemma transfer_labels_on_cloud (curv : list (Curv.row R)) (pcloud : list (Pcloud.row R)) :
  pcloud <> [] -> exists out, transfer_labels curv pcloud = inr out.
Proof.
  intros Hne. unfold transfer_labels.
  destruct (@mapM_total _ _ (fun row => _transfer_gt_labels row pcloud) (drop_duplicates curv))
    as (idxs & Hidxs).
  - intros row _. destruct (_transfer_gt_labels row pcloud) as [e | i] eqn:E; [| eauto].
    apply nearest_neighbour_outcome in E. destruct E as [Hnil _]. contradiction.
  - rewrite Hidxs. eexists. reflexivity.
Qed.

End TransferOutcome.

(** ** Counting the rows of the transfer *)

Lemma filter_concat_map (A : Type) (P : A -> bool) (ll : list (list A)) :
  filter P (concat ll) = concat (map (filter P) ll).
Proof.
  induction ll as [| l ll IH]; [reflexivity |].
  simpl. rewrite filter_app, IH. reflexivity.
Qed.

Lemma list_sum_map_add (A : Type) (f g : A -> nat) (l : list A) :
  list_sum (map (fun a => f a + g a) l) = list_sum (map f l) + list_sum (map g l).
Proof. induction l as [| a l IH]; simpl; lia. Qed.

Lemma list_sum_indicator (k n s : nat) :
  s <= k < s + n ->
  list_sum (map (fun j => if k =? j then 1 else 0) (seq s n)) = 1.
Proof.
  revert s. induction n as [| n IH]; intros s Hk; [lia |].
  simpl. destruct (Nat.eqb_spec k s) as [-> | Hne].
  - f_equal. clear IH Hk. generalize (S s) (Nat.lt_succ_diag_r s). intros t Ht.
    revert t Ht. induction n as [| n IHn]; intros t Ht; [reflexivity |].
    simpl. destruct (Nat.eqb_spec s t) as [-> | _]; [lia |]. apply IHn. lia.
  - apply IH. lia.
Qed.

(** Rows grouped by key: when every key is below [n], the groups of the keys
    0 .. n-1 hold every row once. *)
Lemma count_by_key (A : Type) (l : list (A * nat)) (n : nat) :
  (forall m, In m l -> snd m < n) ->
  list_sum (map (fun j => length (filter (fun m => snd m =? j) l)) (seq 0 n)) = length l.
Proof.
  induction l as [| a l IH]; intros Hkeys.
  - simpl. induction (seq 0 n) as [| j js IHj]; [reflexivity | exact IHj].
  - rewrite (map_ext _ (fun j => (if snd a =? j then 1 else 0)
                                 + length (filter (fun m => snd m =? j) l))).
    + rewrite list_sum_map_add, IH, list_sum_indicator.
      * reflexivity.
      * specialize (Hkeys a (or_introl eq_refl)). lia.
      * intros m Hm. apply Hkeys. right. exact Hm.
    + intros j. simpl. destruct (snd a =? j); reflexivity.
Qed.

Lemma filter_key_count (A : Type) (l : list (A * nat)) (j : nat) :
  length (filter (fun m => snd m =? j) l) = count_occ Nat.eq_dec (map snd l) j.
Proof.
  induction l as [| a l IH]; [reflexivity |].
  simpl. destruct (Nat.eqb_spec (snd a) j) as [Heq | Hne];
    destruct (Nat.eq_dec (snd a) j); try contradiction; simpl; rewrite IH; reflexivity.
Qed.

Lemma list_sum_at_least (A : Type) (f : A -> nat) (l : list A) :
  (forall a, In a l -> 1 <= f a) -> length l <= list_sum (map f l).
Proof.
  induction l as [| a l IH]; intros Hf; [simpl; lia |].
  simpl. specialize (Hf a (or_introl eq_refl)) as Ha.
  assert (length l <= list_sum (map f l)) by (apply IH; intros; apply Hf; right; assumption).
  lia.
Qed.

Lemma list_sum_tight (A : Type) (f : A -> nat) (l : list A) :
  (forall a, In a l -> 1 <= f a) ->
  list_sum (map f l) = length l ->
  forall a, In a l -> f a = 1.
Proof.
  induction l as [| a l IH]; intros Hf Hsum b Hb; [destruct Hb |].
  simpl in Hsum. specialize (Hf a (or_introl eq_refl)) as Ha.
  assert (Hl : forall a', In a' l -> 1 <= f a') by (intros; apply Hf; right; assumption).
  pose proof (list_sum_at_least f l Hl) as Hge.
  destruct Hb as [<- | Hb]; [lia |].
  apply IH; [exact Hl | lia | exact Hb].
Qed.

Lemma filter_filter_comm (A : Type) (P Q : A -> bool) (l : list A) :
  filter P (filter Q l) = filter Q (filter P l).
Proof.
  induction l as [| a l IH]; [reflexivity |].
  simpl. destruct (P a) eqn:Ep, (Q a) eqn:Eq; simpl; rewrite ?Ep, ?Eq, IH; reflexivity.
Qed.

Lemma Forall2_combine_In (A B : Type) (P : A -> B -> Prop) (l : list A) (l' : list B) (m : A * B) :
  Forall2 P l l' -> In m (combine l l') -> P (fst m) (snd m).
Proof.
  induction 1 as [| a b l l' Hab HF IH]; intros Hin; [destruct Hin |].
  destruct Hin as [<- | Hin]; [exact Hab | exact (IH Hin)].
Qed.

Lemma filter_all_true (A : Type) (l : list A) : filter (fun _ => true) l = l.
Proof. induction l as [| a l IH]; [reflexivity | simpl; rewrite IH; reflexivity]. Qed.

Section TransferCounts.
Context {R : Type} `{Scalar R}.

Lemma transfer_keys_in_range (l : list (Curv.row R)) (pcloud : list (Pcloud.row R))
      (idxs : list nat) :
  mapM (fun row => _transfer_gt_labels row pcloud) l = inr idxs ->
  forall m, In m (combine l idxs) -> snd m < length pcloud.
Proof.
  intros Hidxs m Hm. apply mapM_Forall2 in Hidxs.
  apply (nearest_neighbour_outcome (fst m) pcloud).
  apply (Forall2_combine_In _ Hidxs Hm).
Qed.

Lemma rows_of_point_length (left : list (Curv.row R * nat)) (j : nat) (p : Pcloud.row R) :
  length (rows_of_point left j p) =
  Nat.max 1 (length (filter (fun m => snd m =? j) left)).
Proof.
  unfold rows_of_point. destruct (filter _ left) as [| m ms]; [reflexivity |].
  rewrite length_map. simpl. reflexivity.
Qed.

Lemma merge_right_length (left : list (Curv.row R * nat)) (pcloud : list (Pcloud.row R)) :
  length (merge_right left pcloud) =
  list_sum (map (fun jp => Nat.max 1 (length (filter (fun m => snd m =? fst jp) left)))
                (combine (seq 0 (length pcloud)) pcloud)).
Proof.
  unfold merge_right. rewrite length_concat, map_map. f_equal.
  apply map_ext. intros [j p]. apply rows_of_point_length.
Qed.

(** The labelled rows that satisfy a test which fails on unmatched rows and
    reads, on a matched row, a test of its boundary point. *)
Lemma labelled_rows_count (PO : Out.row R -> bool) (Q : Curv.row R -> bool)
      (left : list (Curv.row R * nat)) (pcloud : list (Pcloud.row R)) :
  (forall p, PO (label_row (None, p)) = false) ->
  (forall b p, PO (label_row (Some b, p)) = Q b) ->
  (forall m, In m left -> snd m < length pcloud) ->
  length (filter PO (map label_row (merge_right left pcloud)))
  = length (filter (fun m => Q (fst m)) left).
Proof.
  intros Hnone Hsome Hkeys.
  rewrite <- (@count_by_key _ (filter (fun m => Q (fst m)) left) (length pcloud)).
  2:{ intros m Hm. apply filter_In in Hm. apply Hkeys. apply Hm. }
  assert (Hfst : forall (l : list (Pcloud.row R)) s,
             map fst (combine (seq s (length l)) l) = seq s (length l)).
  { induction l as [| a l IH]; intros s; [reflexivity |]. simpl. f_equal. apply IH. }
  transitivity
    (list_sum
       (map (fun jp : nat * Pcloud.row R =>
               length (filter (fun m => snd m =? fst jp)
                              (filter (fun m => Q (fst m)) left)))
            (combine (seq 0 (length pcloud)) pcloud))).
  2:{ rewrite <- (Hfst pcloud 0) at 2. rewrite map_map. reflexivity. }
  unfold merge_right. rewrite concat_map, filter_concat_map, length_concat, !map_map.
  f_equal.
  apply map_ext. intros [j p]. cbn [fst snd].
  rewrite filter_filter_comm. unfold rows_of_point.
  destruct (filter (fun m => snd m =? j) left) as [| m ms]; simpl.
  - rewrite Hnone. reflexivity.
  - rewrite Hsome, !filter_map_comm.
    rewrite (filter_ext _ (fun m0 => Q (fst m0))) by (intros m0; apply Hsome).
    destruct (Q (fst m)); simpl; rewrite !length_map; reflexivity.
Qed.

(** X10: every deduplicated boundary point labels exactly one row.  The rows
    with [is_edge = true] are as many as the distinct vertex indices of the
    boundary points, and the rows with [is_corner = true] as many as the
    deduplicated boundary points that are corners. *)
Theorem X10_one_labelled_row_per_boundary_point
        (curv : list (Curv.row R)) (pcloud : list (Pcloud.row R)) (out : list (Out.row R))
        (Hrun : transfer_labels curv pcloud = inr out) :
  length (filter (@Out.is_edge R) out) = length (drop_duplicates curv) /\
  length (filter (@Out.is_corner R) out)
  = length (filter (@Curv.is_corner R) (drop_duplicates curv)).
Proof.
  apply transfer_labels_inv in Hrun. destruct Hrun as (idxs & Hidxs & ->).
  pose proof (transfer_keys_in_range _ _ Hidxs) as Hkeys.
  pose proof (mapM_combine _ 0 _ Hidxs) as Hleft.
  split.
  - rewrite (@labelled_rows_count _ (fun _ => true)); auto.
    rewrite filter_all_true, length_combine, (mapM_length _ _ Hidxs). apply Nat.min_id.
  - rewrite (@labelled_rows_count _ (@Curv.is_corner R)); auto.
    + rewrite Hleft, filter_map_comm, length_map. reflexivity.
    + intros b p. simpl. destruct (Curv.is_corner b); reflexivity.
Qed.

End TransferCounts.

Lemma in_combine_seq_nth (A : Type) (l : list A) (s j : nat) (a : A) :
  In (j, a) (combine (seq s (length l)) l) -> s <= j /\ nth_error l (j - s) = Some a.
Proof.
  revert s. induction l as [| b l IH]; intros s Hin; [destruct Hin |].
  simpl in Hin. destruct Hin as [Heq | Hin].
  - injection Heq as <- <-. rewrite Nat.sub_diag. split; [lia | reflexivity].
  - destruct (IH (S s) Hin) as [Hle Hnth]. split; [lia |].
    replace (j - s) with (S (j - S s)) by lia. exact Hnth.
Qed.

Section TransferRows.
Context {R : Type} `{Scalar R}.

(** X9: on a cloud of at least one point the Transfer Engine returns a
    frame, whatever the boundary points: a failure of the transfer always
    means that the cloud was empty. *)
Theorem X9_transfer_returns_on_nonempty_cloud
        (curv : list (Curv.row R)) (pcloud : list (Pcloud.row R))
        (Hn : 1 <= length pcloud) :
  (exists out, transfer_labels curv pcloud = inr out) /\
  (forall e, transfer_labels curv pcloud <> inl e).
Proof.
  destruct (@transfer_labels_on_cloud _ _ curv pcloud) as (out & Hout).
  - destruct pcloud; [simpl in Hn; lia | discriminate].
  - split; [exists out; exact Hout |]. intros e. rewrite Hout. discriminate.
Qed.

(** X11: the returned frame never has fewer rows than the cloud has points,
    and it has exactly as many iff no two deduplicated boundary points have
    the same nearest sampled point. *)
Theorem X11_row_count_and_shared_nearest_points
        (curv : list (Curv.row R)) (pcloud : list (Pcloud.row R))
        (idxs : list nat) (out : list (Out.row R))
        (Hidxs : mapM (fun row => _transfer_gt_labels row pcloud) (drop_duplicates curv)
                 = inr idxs)
        (Hrun : transfer_labels curv pcloud = inr out) :
  length pcloud <= length out /\
  (length out = length pcloud <-> NoDup idxs).
Proof.
  pose proof Hrun as Hinv. apply transfer_labels_inv in Hinv.
  destruct Hinv as (idxs' & Hidxs' & Hout).
  assert (idxs' = idxs) by congruence. subst idxs'.
  set (left := combine (drop_duplicates curv) idxs) in *.
  assert (Hsnd : map snd left = idxs)
    by (apply map_snd_combine_eq, (mapM_length _ _ Hidxs)).
  assert (HlenL : length (combine (seq 0 (length pcloud)) pcloud) = length pcloud)
    by (rewrite length_combine, length_seq; apply Nat.min_id).
  assert (Hlen : length out
                 = list_sum (map (fun jp : nat * Pcloud.row R =>
                                    Nat.max 1 (length (filter (fun m => snd m =? fst jp) left)))
                                 (combine (seq 0 (length pcloud)) pcloud)))
    by (rewrite Hout, length_map; apply merge_right_length).
  split.
  - rewrite Hlen, <- HlenL at 1. apply list_sum_at_least. intros jp _. lia.
  - split.
    + intros Heq. apply (NoDup_count_occ Nat.eq_dec). intros j.
      destruct (Nat.lt_ge_cases j (length pcloud)) as [Hj | Hj].
      * destruct (nth_error pcloud j) as [p |] eqn:Ep;
          [| apply nth_error_None in Ep; lia].
        assert (Hone : Nat.max 1 (length (filter (fun m => snd m =? j) left)) = 1).
        { apply (@list_sum_tight _
                   (fun jp : nat * Pcloud.row R =>
                      Nat.max 1 (length (filter (fun m => snd m =? fst jp) left)))
                   (combine (seq 0 (length pcloud)) pcloud)) with (a := (j, p)).
          - intros jp _. lia.
          - rewrite <- Hlen, HlenL. exact Heq.
          - apply nth_error_In with j. apply (nth_error_combine_seq _ 0 _ Ep). }
        rewrite <- Hsnd, <- filter_key_count. lia.
      * rewrite (proj1 (count_occ_not_In Nat.eq_dec idxs j)); [lia |].
        intros Hin. rewrite <- Hsnd in Hin. apply in_map_iff in Hin.
        destruct Hin as (m & <- & Hm).
        pose proof (transfer_keys_in_range _ _ Hidxs m Hm). lia.
    + intros Hnd. rewrite <- (length_map out_point). f_equal.
      exact (transfer_labels_without_collision _ _ Hidxs Hnd Hrun).
Qed.

Lemma labelled_row_origin
        (curv : list (Curv.row R)) (pcloud : list (Pcloud.row R)) (out : list (Out.row R))
        (Hrun : transfer_labels curv pcloud = inr out) :
  forall r, In r out ->
    (Out.is_edge r = false /\ Out.is_corner r = false /\ Out.curv_id r = None /\
     Out.x_orig r = None /\ Out.y_orig r = None /\ Out.z_orig r = None) \/
    (Out.is_edge r = true /\
     exists b j,
       In b (drop_duplicates curv) /\
       _transfer_gt_labels b pcloud = inr j /\
       nth_error pcloud j = Some (out_point r) /\
       Out.curv_id r = Some (Curv.curv_id b) /\
       Out.is_corner r = Curv.is_corner b /\
       Out.x_orig r = Some (Curv.x b) /\ Out.y_orig r = Some (Curv.y b) /\
       Out.z_orig r = Some (Curv.z b)).
Proof.
  apply transfer_labels_inv in Hrun. destruct Hrun as (idxs & Hidxs & ->).
  intros r Hr. apply in_map_iff in Hr. destruct Hr as (m & <- & Hm).
  unfold merge_right in Hm. apply in_concat in Hm. destruct Hm as (g & Hg & Hm).
  apply in_map_iff in Hg. destruct Hg as ([j p] & <- & Hjp). cbn [fst snd] in Hm.
  apply in_combine_seq_nth in Hjp. destruct Hjp as [_ Hp]. rewrite Nat.sub_0_r in Hp.
  unfold rows_of_point in Hm.
  destruct (filter (fun m0 => snd m0 =? j) (combine (drop_duplicates curv) idxs))
    as [| m0 ms] eqn:Ef.
  - destruct Hm as [<- | []]. left. repeat split.
  - apply in_map_iff in Hm. destruct Hm as (m1 & <- & Hm1).
    assert (Hin : In m1 (filter (fun m0 => snd m0 =? j)
                                (combine (drop_duplicates curv) idxs)))
      by (rewrite Ef; exact Hm1).
    apply filter_In in Hin. destruct Hin as [Hin Hkey]. apply Nat.eqb_eq in Hkey.
    right. split; [reflexivity |]. exists (fst m1), j.
    split; [destruct m1; apply (in_combine_l _ _ _ _ Hin) |].
    split.
    { apply mapM_Forall2 in Hidxs. rewrite <- Hkey.
      apply (Forall2_combine_In _ Hidxs Hin). }
    split; [rewrite out_point_label_row; exact Hp |].
    cbn. repeat split. destruct (Curv.is_corner (fst m1)); reflexivity.
Qed.

(** X12: where the labels of a row come from.  A row with [is_edge = false]
    has none of the columns of the boundary frame ([curv_id], [x_orig],
    [y_orig], [z_orig] are missing) and is no corner.  A row with
    [is_edge = true] carries the curve label, the original coordinates and the
    corner flag of one deduplicated boundary point, and its own coordinates
    are those of the sampled point nearest to that boundary point. *)
Theorem X12_labels_come_from_one_boundary_point
        (curv : list (Curv.row R)) (pcloud : list (Pcloud.row R)) (out : list (Out.row R))
        (Hrun : transfer_labels curv pcloud = inr out) :
  forall r, In r out ->
    (Out.is_edge r = false /\ Out.is_corner r = false /\ Out.curv_id r = None /\
     Out.x_orig r = None /\ Out.y_orig r = None /\ Out.z_orig r = None) \/
    (Out.is_edge r = true /\
     exists b j,
       In b (drop_duplicates curv) /\
       _transfer_gt_labels b pcloud = inr j /\
       nth_error pcloud j = Some (out_point r) /\
       Out.curv_id r = Some (Curv.curv_id b) /\
       Out.is_corner r = Curv.is_corner b /\
       Out.x_orig r = Some (Curv.x b) /\ Out.y_orig r = Some (Curv.y b) /\
       Out.z_orig r = Some (Curv.z b)).
Proof. exact (labelled_row_origin _ _ Hrun). Qed.

(** X18: extraction and transfer composed.  A row of the labelled cloud with
    [is_corner = true] carries the original coordinates of a boundary point
    whose vertex index is listed at least twice in the feature set, and the
    row is the sampled point nearest to that boundary point. *)
Theorem X18_corner_label_traces_to_repeated_vertex
        (orig_points : list (@vertex R)) (feat : Feat) (curv : list (Curv.row R))
        (pcloud : list (Pcloud.row R)) (out : list (Out.row R))
        (Hext : mark_edges_and_corners orig_points feat = inr curv)
        (Hrun : transfer_labels curv pcloud = inr out) :
  forall r, In r out -> Out.is_corner r = true ->
    exists b j,
      In b curv /\
      1 < count_occ Z.eq_dec (concat (map vert_indices (curves feat))) (Curv.idx b) /\
      _transfer_gt_labels b pcloud = inr j /\
      nth_error pcloud j = Some (out_point r) /\
      Out.x_orig r = Some (Curv.x b) /\ Out.y_orig r = Some (Curv.y b) /\
      Out.z_orig r = Some (Curv.z b).
Proof.
  intros r Hr Hcorner.
  destruct (labelled_row_origin _ _ Hrun r Hr)
    as [(_ & Hno & _) | (_ & b & j & Hb & Hj & Hp & _ & Hflag & Hx & Hy & Hz)];
    [congruence |].
  apply drop_duplicates_In in Hb.
  destruct (mark_edges_and_corners_inv _ _ Hext) as [Hidx Hcount].
  exists b, j. repeat split; try assumption.
  apply Nat.ltb_lt. rewrite <- Hidx. unfold value_counts in Hcount.
  rewrite <- (Hcount b Hb), <- Hflag. exact Hcorner.
Qed.

End TransferRows.

(** ** A sampled point that coincides with a boundary point *)

Section Coincidence.
Context {R : Type} `{Scalar R}.

(** The facts of float64 arithmetic, NaN apart, that the statement needs:
    the order is total and transitive, a number minus itself is zero, zero
    squared and zero plus zero are zero, a sum of squares is not below
    zero. *)
Variable zero : R.
Hypothesis Rleb_total : forall a b : R, Rleb a b = true \/ Rleb b a = true.
Hypothesis Rleb_trans : forall a b c : R, Rleb a b = true -> Rleb b c = true -> Rleb a c = true.
Hypothesis Rsub_diag : forall a : R, Rsub a a = zero.
Hypothesis Rsquare_zero : Rsquare zero = zero.
Hypothesis Radd_zero : Radd zero zero = zero.
Hypothesis squares_not_below_zero :
  forall a b c : R, Rleb zero (Radd (Radd (Rsquare a) (Rsquare b)) (Rsquare c)) = true.

(** X13: when a sampled point has exactly the coordinates of the boundary
    point, the search returns a point at squared distance zero, and that point
    is the coinciding one unless an earlier point of the cloud is at distance
    zero as well. *)
Theorem X13_coinciding_point_is_selected
        (row : Curv.row R) (pcloud : list (Pcloud.row R)) (j : nat) (p : Pcloud.row R)
        (Hj : nth_error pcloud j = Some p)
        (Hx : Pcloud.x p = Curv.x row) (Hy : Pcloud.y p = Curv.y row)
        (Hz : Pcloud.z p = Curv.z row) :
  exists i p_i,
    _transfer_gt_labels row pcloud = inr i /\
    nth_error pcloud i = Some p_i /\
    i <= j /\
    Rleb (sq_dist row p_i) zero = true.
Proof.
  assert (Hzero : sq_dist row p = zero).
  { unfold sq_dist. rewrite Hx, Hy, Hz, !Rsub_diag, Rsquare_zero, !Radd_zero. reflexivity. }
  unfold _transfer_gt_labels.
  destruct (@argmin_first_minimum _ _ Rleb_total Rleb_trans (map (sq_dist row) pcloud))
    as (i & m & Hi & Hm & Hmin & Hfirst).
  - destruct pcloud; [destruct j; discriminate | discriminate].
  - rewrite nth_error_map in Hm.
    destruct (nth_error pcloud i) as [p_i |] eqn:Ep; [| discriminate].
    injection Hm as <-. exists i, p_i. repeat split; auto.
    + destruct (Nat.le_gt_cases i j) as [Hij | Hji]; [exact Hij |].
      assert (Hlt : Rleb (sq_dist row p) (sq_dist row p_i) = false).
      { apply (Hfirst j); [exact Hji |]. rewrite nth_error_map, Hj. reflexivity. }
      rewrite Hzero in Hlt. unfold sq_dist in Hlt.
      rewrite squares_not_below_zero in Hlt. discriminate.
    + rewrite <- Hzero. apply Hmin. apply in_map. apply (nth_error_In _ _ Hj).
Qed.

End Coincidence.

(** ** The name of the written file *)

Lemma span_no_underscore_spec (s a b : string) :
  span_no_underscore s = (a, b) ->
  s = (a ++ b)%string /\
  (forall c, In c (list_ascii_of_string a) -> c <> "_"%char) /\
  (b = EmptyString \/ exists rest, b = String "_" rest).
Proof.
  revert a b. induction s as [| c s IH]; intros a b Hspan.
  - injection Hspan as <- <-. split; [reflexivity |]. split; [intros c [] | left; reflexivity].
  - cbn [span_no_underscore] in Hspan.
    destruct (Ascii.eqb_spec c "_") as [-> | Hne].
    + injection Hspan as <- <-. split; [reflexivity |].
      split; [intros c [] | right; eexists; reflexivity].
    + destruct (span_no_underscore s) as [a' b'] eqn:E.
      injection Hspan as <- <-.
      destruct (IH a' b' eq_refl) as (-> & Htoken & Hrest).
      split; [reflexivity |]. split; [| exact Hrest].
      intros c' [<- | Hc']; [exact Hne | apply Htoken; exact Hc'].
Qed.

Lemma _format_pcloud_filename_raises (feat_path : list string) (e : exn) :
  _format_pcloud_filename feat_path = inl e -> e = AttributeError.
Proof.
  unfold _format_pcloud_filename.
  destruct (re_match_group1 _); [discriminate |]. unfold raise. congruence.
Qed.

(** X14: the file name is formed exactly when the last part of the feature
    path starts with a non-empty run of characters other than the underscore
    followed by an underscore; the name is then that run followed by
    [_pcloud_points.parq].  In every other case the function raises
    AttributeError. *)
Theorem X14_filename_formed_iff (feat_path : list string) :
  (forall f, _format_pcloud_filename feat_path = inr f <->
             exists prefix rest,
               path_name feat_path = (prefix ++ "_" ++ rest)%string /\
               prefix <> EmptyString /\
               (forall c, In c (list_ascii_of_string prefix) -> c <> "_"%char) /\
               f = (prefix ++ "_pcloud_points.parq")%string) /\
  (forall e, _format_pcloud_filename feat_path = inl e -> e = AttributeError).
Proof.
  split.
  - intros f. split.
    + unfold _format_pcloud_filename, re_match_group1.
      destruct (span_no_underscore (path_name feat_path)) as [a b] eqn:E.
      apply span_no_underscore_spec in E. destruct E as (Hname & Htoken & Hrest).
      destruct a as [| c a]; [discriminate |].
      destruct b as [| c' b]; [discriminate |].
      destruct Hrest as [Hb | (rest & Hb)]; [discriminate |]. injection Hb as -> ->.
      unfold ret. intros Heq. injection Heq as <-.
      exists (String c a), rest. repeat split; [exact Hname | discriminate | exact Htoken].
    + intros (prefix & rest & Hname & Hsome & Htoken & ->).
      apply _format_pcloud_filename_token with rest; assumption.
  - intros e. apply _format_pcloud_filename_raises.
Qed.

(** X15: the name of the written file depends on the leading token of the
    feature file name alone: two feature files whose names start with the
    same token, in whatever directories, are written to the same file. *)
Theorem X15_same_token_same_file
        (path1 path2 : list string) (prefix rest1 rest2 : string)
        (Hname1 : path_name path1 = (prefix ++ "_" ++ rest1)%string)
        (Hname2 : path_name path2 = (prefix ++ "_" ++ rest2)%string)
        (Hsome : prefix <> EmptyString)
        (Htoken : forall c, In c (list_ascii_of_string prefix) -> c <> "_"%char) :
  _format_pcloud_filename path1 = inr (prefix ++ "_pcloud_points.parq")%string /\
  _format_pcloud_filename path2 = _format_pcloud_filename path1.
Proof.
  rewrite (@_format_pcloud_filename_token path1 prefix rest1 Hname1 Hsome Htoken).
  rewrite (@_format_pcloud_filename_token path2 prefix rest2 Hname2 Hsome Htoken).
  split; reflexivity.
Qed.

(** ** The driver *)

Section DriverOutcome.
Context {R : Type} `{Scalar R}.

Lemma extractor_returns_rows (orig_points : list (@vertex R)) (feat : Feat)
      (curv : list (Curv.row R)) :
  mark_edges_and_corners orig_points feat = inr curv -> curv <> [].
Proof.
  intros Hrun. destruct (mark_edges_and_corners_steps _ _ Hrun) as (Hcurves & Hne & _).
  destruct (mark_edges_and_corners_inv _ _ Hrun) as [Hidx _].
  intros ->. destruct (curves feat) as [| c cs]; [congruence |].
  apply Forall_inv in Hne. simpl in Hidx.
  destruct (vert_indices c); [congruence | discriminate].
Qed.

Lemma transfer_labels_empty_cloud (curv : list (Curv.row R)) :
  curv <> [] -> transfer_labels curv [] = inl ValueError.
Proof.
  intros Hne. unfold transfer_labels. pose proof (drop_duplicates_nonempty Hne) as Hd.
  destruct (drop_duplicates curv) as [| b l]; [congruence | reflexivity].
Qed.

(** X16: with an empty sampled cloud the driver writes no file, whatever the
    mesh, the feature set and the feature path: if the extraction does not
    fail, the transfer does. *)
Theorem X16_empty_cloud_never_written
        (orig_points : list (@vertex R)) (feat : Feat) (feat_path : list string) :
  exists e, generate_one_pcloud orig_points [] feat feat_path = inl e.
Proof.
  unfold generate_one_pcloud.
  destruct (mark_edges_and_corners orig_points feat) as [e | curv] eqn:E.
  - exists e. reflexivity.
  - exists ValueError. cbn [bind sample_point_cloud map].
    rewrite (transfer_labels_empty_cloud (extractor_returns_rows _ _ E)). reflexivity.
Qed.

(** X17: the outcome of the driver.  A file is written exactly when the
    extraction succeeds, the sampler returned at least one point and the file
    name can be formed.  Otherwise the first failing step decides: the
    exception of the extraction, else ValueError for an empty cloud, else
    AttributeError for the file name, which is met only after extraction and
    transfer went through. *)
Theorem X17_driver_outcome
        (orig_points sampled : list (@vertex R)) (feat : Feat) (feat_path : list string) :
  ((exists file, generate_one_pcloud orig_points sampled feat feat_path = inr file) <->
   (exists curv, mark_edges_and_corners orig_points feat = inr curv) /\
   sampled <> [] /\
   (exists f, _format_pcloud_filename feat_path = inr f)) /\
  (forall e, mark_edges_and_corners orig_points feat = inl e ->
             generate_one_pcloud orig_points sampled feat feat_path = inl e) /\
  (forall curv, mark_edges_and_corners orig_points feat = inr curv -> sampled = [] ->
                generate_one_pcloud orig_points sampled feat feat_path = inl ValueError) /\
  (forall curv e, mark_edges_and_corners orig_points feat = inr curv -> sampled <> [] ->
                  _format_pcloud_filename feat_path = inl e ->
                  generate_one_pcloud orig_points sampled feat feat_path = inl AttributeError).
Proof.
  assert (Hcloud : sampled <> [] -> sample_point_cloud sampled <> [])
    by (destruct sampled; [congruence | discriminate]).
  unfold generate_one_pcloud.
  destruct (mark_edges_and_corners orig_points feat) as [e0 | curv] eqn:E; cbn [bind].
  { repeat split; intros;
      repeat match goal with
             | Hx : exists _, _ |- _ => destruct Hx
             | Hx : _ /\ _ |- _ => destruct Hx
             end; congruence. }
  destruct sampled as [| v sampled].
  { cbn [sample_point_cloud map].
    rewrite (transfer_labels_empty_cloud (extractor_returns_rows _ _ E)). cbn [bind].
    repeat split; intros;
      repeat match goal with
             | Hx : exists _, _ |- _ => destruct Hx
             | Hx : _ /\ _ |- _ => destruct Hx
             end; congruence. }
  destruct (@transfer_labels_on_cloud _ _ curv (sample_point_cloud (v :: sampled)))
    as (out & Hout); [apply Hcloud; discriminate |].
  rewrite Hout. cbn [bind]. unfold write_pcloud.
  destruct (_format_pcloud_filename feat_path) as [e1 | f] eqn:Ef; cbn [bind].
  - assert (e1 = AttributeError) by (apply (_format_pcloud_filename_raises _ Ef)). subst e1.
    repeat split; intros;
      repeat match goal with
             | Hx : exists _, _ |- _ => destruct Hx
             | Hx : _ /\ _ |- _ => destruct Hx
             end; congruence.
  - split; [| repeat split; intros; congruence].
    split; [intros _ | intros _; eexists; reflexivity].
    split; [eauto |]. split; [discriminate | eauto].
Qed.

End DriverOutcome.

(** ** Instances of the further properties *)

Lemma Z_sub_diag_zero (a : Z) : Rsub a a = 0%Z.
Proof. simpl. lia. Qed.

Lemma Z_squares_not_below_zero (a b c : Z) :
  Rleb 0%Z (Radd (Radd (Rsquare a) (Rsquare b)) (Rsquare c)) = true.
Proof. simpl. apply Z.leb_le. nia. Qed.

Lemma X1_witness :
  mark_edges_and_corners mesh6 feat_wrap = inr curv_wrap /\
  map (fun c => (Curv.curv_id c, Curv.idx c)) curv_wrap
  = flat_occurrences (map vert_indices (curves feat_wrap)) /\
  length curv_wrap = length (concat (map vert_indices (curves feat_wrap))).
Proof.
  split; [reflexivity |].
  apply (@X1_extractor_rows_follow_references Z mesh6 feat_wrap curv_wrap).
  reflexivity.
Defined.

Lemma X2_witness :
  mark_edges_and_corners mesh6 feat_wrap = inr curv_wrap /\
  forall c, In c curv_wrap ->
    (- Z.of_nat (length mesh6) <= Curv.idx c < Z.of_nat (length mesh6))%Z /\
    nth_error mesh6 (Z.to_nat (vertex_position (length mesh6) (Curv.idx c)))
    = Some (Curv.x c, Curv.y c, Curv.z c).
Proof.
  split; [reflexivity |].
  apply (@X2_extractor_coordinates_from_mesh Z mesh6 feat_wrap curv_wrap).
  reflexivity.
Defined.

Lemma X6_witness :
  mark_edges_and_corners mesh6 feat_252 = inr curv_252 /\
  forall c1 c2, In c1 curv_252 -> In c2 curv_252 -> Curv.idx c1 = Curv.idx c2 ->
                Curv.is_corner c1 = Curv.is_corner c2.
Proof.
  split; [reflexivity |].
  apply (@X6_corner_flag_is_per_vertex Z mesh6 feat_252 curv_252).
  reflexivity.
Defined.

Lemma X9_witness :
  1 <= length cloud_pair /\
  (exists out, transfer_labels curv_two cloud_pair = inr out) /\
  (forall e, transfer_labels curv_two cloud_pair <> inl e).
Proof.
  split; [simpl; lia |].
  apply (@X9_transfer_returns_on_nonempty_cloud Z Scalar_Z curv_two cloud_pair).
  simpl; lia.
Defined.

Lemma X10_witness :
  transfer_labels curv_252 cloud10 = inr labelled10 /\
  length (filter (@Out.is_edge Z) labelled10) = length (drop_duplicates curv_252) /\
  length (filter (@Out.is_corner Z) labelled10)
  = length (filter (@Curv.is_corner Z) (drop_duplicates curv_252)).
Proof.
  split; [reflexivity |].
  apply (@X10_one_labelled_row_per_boundary_point Z Scalar_Z curv_252 cloud10 labelled10).
  reflexivity.
Defined.

Lemma X11_witness :
  mapM (fun row => _transfer_gt_labels row cloud10) (drop_duplicates curv_252) = inr [3; 7] /\
  transfer_labels curv_252 cloud10 = inr labelled10 /\
  length cloud10 <= length labelled10 /\
  (length labelled10 = length cloud10 <-> NoDup [3; 7]).
Proof.
  split; [reflexivity |]. split; [reflexivity |].
  apply (@X11_row_count_and_shared_nearest_points Z Scalar_Z curv_252 cloud10 [3; 7] labelled10);
    reflexivity.
Defined.

Lemma X12_witness :
  transfer_labels curv_252 cloud10 = inr labelled10 /\
  forall r, In r labelled10 ->
    (Out.is_edge r = false /\ Out.is_corner r = false /\ Out.curv_id r = None /\
     Out.x_orig r = None /\ Out.y_orig r = None /\ Out.z_orig r = None) \/
    (Out.is_edge r = true /\
     exists b j,
       In b (drop_duplicates curv_252) /\
       _transfer_gt_labels b cloud10 = inr j /\
       nth_error cloud10 j = Some (out_point r) /\
       Out.curv_id r = Some (Curv.curv_id b) /\
       Out.is_corner r = Curv.is_corner b /\
       Out.x_orig r = Some (Curv.x b) /\ Out.y_orig r = Some (Curv.y b) /\
       Out.z_orig r = Some (Curv.z b)).
Proof.
  split; [reflexivity |].
  apply (@X12_labels_come_from_one_boundary_point Z Scalar_Z curv_252 cloud10 labelled10).
  reflexivity.
Defined.

Lemma X13_witness :
  nth_error cloud10 3 = Some (sample_point 20 0 0) /\
  exists i p_i,
    _transfer_gt_labels (boundary_point 0 2 true 20 0 0) cloud10 = inr i /\
    nth_error cloud10 i = Some p_i /\
    i <= 3 /\
    Rleb (sq_dist (boundary_point 0 2 true 20 0 0) p_i) 0%Z = true.
Proof.
  split; [reflexivity |].
  apply (@X13_coinciding_point_is_selected Z Scalar_Z 0%Z Z_leb_total Z_leb_trans
           Z_sub_diag_zero eq_refl eq_refl Z_squares_not_below_zero
           (boundary_point 0 2 true 20 0 0) cloud10 3 (sample_point 20 0 0));
    reflexivity.
Defined.

Lemma X15_witness :
  path_name ["data"; "feat"; "0001"; "00000002_1ffb81a71e5b402e966b9341_features_001.yml"]%string
  = ("00000002" ++ "_" ++ "1ffb81a71e5b402e966b9341_features_001.yml")%string /\
  path_name ["elsewhere"; "00000002_stats.yml"]%string
  = ("00000002" ++ "_" ++ "stats.yml")%string /\
  _format_pcloud_filename
    ["data"; "feat"; "0001"; "00000002_1ffb81a71e5b402e966b9341_features_001.yml"]%string
  = inr ("00000002" ++ "_pcloud_points.parq")%string /\
  _format_pcloud_filename ["elsewhere"; "00000002_stats.yml"]%string
  = _format_pcloud_filename
      ["data"; "feat"; "0001"; "00000002_1ffb81a71e5b402e966b9341_features_001.yml"]%string.
Proof.
  split; [reflexivity |]. split; [reflexivity |].
  apply (@X15_same_token_same_file
           ["data"; "feat"; "0001"; "00000002_1ffb81a71e5b402e966b9341_features_001.yml"]%string
           ["elsewhere"; "00000002_stats.yml"]%string
           "00000002" "1ffb81a71e5b402e966b9341_features_001.yml" "stats.yml").
  - reflexivity.
  - reflexivity.
  - discriminate.
  - intros c Hin. simpl in Hin.
    repeat (destruct Hin as [<- | Hin]; [discriminate |]). destruct Hin.
Defined.

Lemma X18_witness :
  mark_edges_and_corners mesh6 feat_252 = inr curv_252 /\
  transfer_labels curv_252 cloud10 = inr labelled10 /\
  forall r, In r labelled10 -> Out.is_corner r = true ->
    exists b j,
      In b curv_252 /\
      1 < count_occ Z.eq_dec (concat (map vert_indices (curves feat_252))) (Curv.idx b) /\
      _transfer_gt_labels b cloud10 = inr j /\
      nth_error cloud10 j = Some (out_point r) /\
      Out.x_orig r = Some (Curv.x b) /\ Out.y_orig r = Some (Curv.y b) /\
      Out.z_orig r = Some (Curv.z b).
Proof.
  split; [reflexivity |]. split; [reflexivity |].
  apply (@X18_corner_label_traces_to_repeated_vertex Z Scalar_Z mesh6 feat_252 curv_252
           cloud10 labelled10); reflexivity.
Defined.

(** An index that int64 cannot hold stops the extractor at the cast, before
    any vertex is looked up. *)
Example extract_oversized_index :
  @mark_edges_and_corners Z mesh6
    {| curves := [ {| vert_indices := [2; 9223372036854775808]%Z |} ] |}
  = inl OverflowError.
Proof. reflexivity. Qed.
